(** * Sports-card checklist app: ingestion and athlete summary

    A shallow embedding of [app.js] (the [POST /upload-checklist] handler)
    and of [routes/athlete-api.js] ([detectSchema] and the
    [GET /api/athlete-summary] handler), with the properties of the
    design document stated over it.

    Modelling conventions.
    - JavaScript and SQLite strings are byte strings ([string]); case
      mapping is the ASCII one, which is what SQLite's [LOWER] does and what
      [toLowerCase] does on ASCII text.
    - [undefined] / SQL [NULL] is [None] in an [option string].
    - JavaScript numbers are modelled by [Z]: only the integer fragment of
      [Number(text)] is embedded (optionally signed decimal numerals, blank
      text, and text that is not a numeral at all, which reads as [NaN]).
      Numerals with a fraction, an exponent, a radix prefix or [Infinity]
      denote doubles and are not covered ([readNumber] tells the three
      cases apart).  Sums are sums of integers; they are those of the
      program as long as no value exceeds 2^53 in magnitude, which is
      what [exactRun] requires of the values a property adds up.
    - A set store is a pair of tables.  The columns every query names
      literally ([id], [athlete_name], [subset], [card_type], [card_id],
      ...) are record fields; the columns whose name drifts between stores
      (the rookie flag, the numbering) live in a list of named extra
      columns, so that [PRAGMA table_info] and a reference to a missing
      column can both be expressed. *)

From stdpp Require Import base gmap sets list strings sorting.
From Stdlib Require Import ZArith Ascii Lia.

Local Open Scope string_scope.
Local Open Scope Z_scope.

(** ** JavaScript / SQLite string primitives *)

Module Js.

(** [c.toLowerCase()] on one ASCII character. *)
Definition lowerChar (c : ascii) : ascii :=
  let n := N_of_ascii c in
  if ((65 <=? n) && (n <=? 90))%N then ascii_of_N (n + 32) else c.

(** [s.toLowerCase()]; also SQLite's [LOWER(s)]. *)
Fixpoint toLowerCase (s : string) : string :=
  match s with
  | EmptyString => EmptyString
  | String c s' => String (lowerChar c) (toLowerCase s')
  end.

(** [s.startsWith(p)]. *)
Fixpoint startsWith (p s : string) : bool :=
  match p, s with
  | EmptyString, _ => true
  | String a p', String b s' => if decide (a = b) then startsWith p' s' else false
  | String _ _, EmptyString => false
  end.

(** [s.includes(sub)]. *)
Fixpoint includes (sub s : string) : bool :=
  startsWith sub s ||
  match s with
  | EmptyString => false
  | String _ s' => includes sub s'
  end.

(** White space removed by [String.prototype.trim] (ASCII part). *)
Definition isJsSpace (c : ascii) : bool :=
  let n := N_of_ascii c in
  ((n =? 32) || ((9 <=? n) && (n <=? 13)))%N.

Fixpoint trimStartBy (sp : ascii -> bool) (s : string) : string :=
  match s with
  | EmptyString => EmptyString
  | String c s' => if sp c then trimStartBy sp s' else s
  end.

Fixpoint trimEndBy (sp : ascii -> bool) (s : string) : string :=
  match s with
  | EmptyString => EmptyString
  | String c s' =>
      match trimEndBy sp s' with
      | EmptyString => if sp c then EmptyString else String c EmptyString
      | t => String c t
      end
  end.

Definition trimBy (sp : ascii -> bool) (s : string) : string :=
  trimEndBy sp (trimStartBy sp s).

(** [s.trim()]. *)
Definition trim (s : string) : string := trimBy isJsSpace s.

(** [s.split('||')]: cut at every occurrence of the two-character
    separator, scanning left to right. [cur] is the piece being read,
    reversed. *)
Fixpoint splitBars (cur : list ascii) (s : string) : list string :=
  match s with
  | EmptyString => [String.string_of_list_ascii (rev cur)]
  | String "|" (String "|" rest) =>
      String.string_of_list_ascii (rev cur) :: splitBars [] rest
  | String c s' => splitBars (c :: cur) s'
  end.

Definition split2 (s : string) : list string := splitBars [] s.

(** Truthiness of a string-or-undefined value. *)
Definition truthy (v : option string) : bool :=
  match v with
  | Some s => negb (String.eqb s EmptyString)
  | None => false
  end.

(** [a || b] on string-or-undefined values. *)
Definition or (a b : option string) : option string :=
  if truthy a then a else b.

(** [v || ''] *)
Definition orEmpty (v : option string) : string :=
  match v with
  | Some s => s
  | None => EmptyString
  end.

Definition isDigit (c : ascii) : bool :=
  let n := N_of_ascii c in ((48 <=? n) && (n <=? 57))%N.

(** Value of a run of decimal digits, [None] if another character occurs. *)
Fixpoint digitsValue (acc : Z) (s : string) : option Z :=
  match s with
  | EmptyString => Some acc
  | String c s' =>
      if isDigit c
      then digitsValue (10 * acc + (Z.of_N (N_of_ascii c) - 48)) s'
      else None
  end.

(** [Number(text)] on the integer fragment: white space trimmed, blank
    text is [0], an optionally signed run of decimal digits is its value;
    [None] stands for [NaN].  Numerals with a fraction, an exponent or a
    radix prefix, and "Infinity", lie outside the fragment (they read as
    [None] here, as numbers in the program): the properties about sums
    are stated for the texts accepted by [exactNumbering] below. *)
Definition NumberOfString (s : string) : option Z :=
  match trim s with
  | EmptyString => Some 0
  | String "-" (String c d) => Z.opp <$> digitsValue 0 (String c d)
  | String "+" (String c d) => digitsValue 0 (String c d)
  | t => digitsValue 0 t
  end.

(** [Number(v) || 0] for a column value [v] ([Number(null)] is [0]). *)
Definition NumberOrZero (v : option string) : Z :=
  match v with
  | None => 0
  | Some s => default 0 (NumberOfString s)
  end.

End Js.

(** ** How far the embedding reads [Number(text)] *)

(** Every character of a string satisfies [P]. *)
Fixpoint allChars (P : ascii -> bool) (s : string) : bool :=
  match s with
  | EmptyString => true
  | String c s' => P c && allChars P s'
  end.

Fixpoint anyChar (P : ascii -> bool) (s : string) : bool :=
  match s with
  | EmptyString => false
  | String c s' => P c || anyChar P s'
  end.

Definition isAsciiChar (c : ascii) : bool := (N_of_ascii c <? 128)%N.

Definition isLetter (c : ascii) : bool :=
  let n := N_of_ascii c in
  (((65 <=? n) && (n <=? 90)) || ((97 <=? n) && (n <=? 122)))%N.

(** The characters the numeric literals of JavaScript are made of: digits,
    letters (hexadecimal digits, exponent mark, radix prefixes,
    "Infinity"), the two signs and the dot. *)
Definition isNumeralChar (c : ascii) : bool :=
  Js.isDigit c || isLetter c
  || bool_decide (c = "+"%char) || bool_decide (c = "-"%char)
  || bool_decide (c = "."%char).

(** A sufficient test for a trimmed, non-blank ASCII text to read as
    [NaN]: it holds a character no numeric literal contains, or it holds
    neither a digit nor the capital I of "Infinity". *)
Definition surelyNaN (t : string) : bool :=
  negb (allChars isNumeralChar t)
  || negb (anyChar (fun c => Js.isDigit c || bool_decide (c = "I"%char)) t).

(** What [Number(text)] is, as far as the embedding goes: an integer, for
    a blank text or an optionally signed run of digits; [NaN], for an
    ASCII text that is surely no numeral; everything else (fractions,
    exponents, radix prefixes, "Infinity", characters beyond ASCII, among
    which the program knows more white space) is left unread. *)
Inductive NumberReading :=
| IsInteger (n : Z)
| IsNaN
| NotModelled.

Definition readNumber (s : string) : NumberReading :=
  if allChars isAsciiChar s then
    match Js.NumberOfString s with
    | Some n => IsInteger n
    | None => if surelyNaN (Js.trim s) then IsNaN else NotModelled
    end
  else NotModelled.

(** Up to this magnitude every integer is a double, and the sum of two
    doubles whose exact sum is such an integer is that integer. *)
Definition exactLimit : Z := 2 ^ 53.

(** ** SQLite scalar functions used by the queries *)

Module Sql.

(** [TRIM(x)]: SQLite removes spaces (0x20) only. *)
Definition TRIM (s : string) : string :=
  Js.trimBy (fun c => bool_decide (c = " "%char)) s.

(** [LOWER(x)]: ASCII only. *)
Definition LOWER (s : string) : string := Js.toLowerCase s.

(** [MAX(...)] over the selected rows: [NULL] when there is none. *)
Definition MAX (l : list Z) : option Z :=
  match l with
  | [] => None
  | x :: l' => Some (foldr Z.max x l')
  end.

(** Resolution of a column name against a table's columns: SQLite
    compares identifiers without regard to ASCII case. [None] is the
    "no such column" error. *)
Definition columnIndex (cols : list string) (name : string) : option nat :=
  fst <$> list_find (fun c => Js.toLowerCase c = Js.toLowerCase name) cols.

End Sql.

(** ** The set store *)

(** One row of [cards].  [c_extra] holds the values of the store's
    [cards_extra_cols], by position. *)
Record CardRow := mkCard {
  c_id : Z;
  c_card_number : option string;
  c_athlete_name : option string;
  c_subset : option string;
  c_card_type : option string;
  c_extra : list (option string)
}.

(** One row of [parallels]. *)
Record ParallelRow := mkParallel {
  p_id : Z;
  p_card_id : option Z;
  p_parallel_name : option string;
  p_extra : list (option string)
}.

Record Store := mkStore {
  cards_extra_cols : list string;
  cards : list CardRow;
  parallels_extra_cols : list string;
  parallels : list ParallelRow
}.

#[global] Instance CardRow_eq_dec : EqDecision CardRow.
Proof. solve_decision. Defined.
#[global] Instance ParallelRow_eq_dec : EqDecision ParallelRow.
Proof. solve_decision. Defined.
#[global] Instance Store_eq_dec : EqDecision Store.
Proof. solve_decision. Defined.

(** [PRAGMA table_info(cards)] and [PRAGMA table_info(parallels)]: the
    column names. *)
Definition table_info_cards (db : Store) : list string :=
  ["id"; "card_number"; "athlete_name"; "subset"; "card_type"]
    ++ cards_extra_cols db.

Definition table_info_parallels (db : Store) : list string :=
  ["id"; "card_id"; "parallel_name"] ++ parallels_extra_cols db.

(** The value of extra column number [i] in a row. *)
Definition extraAt (vals : list (option string)) (i : nat) : option string :=
  default None (vals !! i).

(** ** File names, shared by every route *)

Definition sanitizeChar (c : ascii) : ascii :=
  let n := N_of_ascii c in
  if (((97 <=? n) && (n <=? 122)) || ((65 <=? n) && (n <=? 90))
      || Js.isDigit c)%N
  then c else "_"%char.

Fixpoint replaceNonAlnum (s : string) : string :=
  match s with
  | EmptyString => EmptyString
  | String c s' => String (sanitizeChar c) (replaceNonAlnum s')
  end.

(** [String(name || '').toLowerCase().replace(/[^a-z0-9]/gi, '_')].
    Characters are bytes and the case mapping is that of ASCII: on ASCII
    names this is the value the program computes.  A name with other
    characters is mapped by the program code unit by code unit after a
    Unicode case mapping that may change its length; the result is made
    of the same alphabet, but need not be the text given here. *)
Definition sanitizeFileName (name : option string) : string :=
  replaceNonAlnum (Js.toLowerCase (Js.orEmpty name)).

Definition dbNameOf (sport set : option string) : string :=
  sanitizeFileName sport +:+ "_" +:+ sanitizeFileName set +:+ ".db".

(** The [data] directory: store files by name. *)
Abbreviation DataDir := (gmap string Store).

(** ** [routes/athlete-api.js] *)

Record BreakdownEntry := mkEntry {
  b_subset : option string;
  b_cardType : option string;
  b_total : Z
}.

Record Summary := mkSummary {
  athlete : string;
  isRookie : bool;
  cardTypeCount : nat;
  totalParallelCards : Z;
  autographCount : Z;
  autographRelicCount : Z;
  breakdown : list BreakdownEntry
}.

Inductive Response :=
| BadRequest (msg : string)
| NotFound (msg : string)
| ServerError (msg : string)
| Redirect (url : string)
| Json (s : Summary).

#[global] Instance BreakdownEntry_eq_dec : EqDecision BreakdownEntry.
Proof. solve_decision. Defined.
#[global] Instance Summary_eq_dec : EqDecision Summary.
Proof. solve_decision. Defined.
#[global] Instance Response_eq_dec : EqDecision Response.
Proof. solve_decision. Defined.

Module AthleteApi.

Definition openDbForChecklist (data : DataDir) (sport set : option string)
  : option Store :=
  data !! dbNameOf sport set.

(** [has(cols, name)] *)
Definition has (cols : list string) (name : string) : bool :=
  existsb (fun c => String.eqb (Js.toLowerCase c) name) cols.

Definition detectSchema (db : Store) : option string * option string :=
  let cardsCols := table_info_cards db in
  let parCols := table_info_parallels db in
  let rookieCol :=
    if has cardsCols "rookie" then Some "rookie"
    else if has cardsCols "is_rookie" then Some "is_rookie" else None in
  let numberingCol :=
    if has parCols "parallel_numbering" then Some "parallel_numbering"
    else if has parCols "numbering" then Some "numbering" else None in
  (rookieCol, numberingCol).

(** [WHERE LOWER(athlete_name) = LOWER(?)]; a [NULL] name matches nothing. *)
Definition athleteMatches (who : string) (c : CardRow) : bool :=
  match c_athlete_name c with
  | Some n => String.eqb (Sql.LOWER n) (Sql.LOWER who)
  | None => false
  end.

(** [CASE WHEN LOWER(TRIM(v)) = 'rookie' THEN 1 ELSE 0 END] *)
Definition rookieCase (v : option string) : Z :=
  match v with
  | Some s => if String.eqb (Sql.LOWER (Sql.TRIM s)) "rookie" then 1 else 0
  | None => 0
  end.

(** The rookie query over [cards] alone; the outer [None] is a rejected
    query, the inner value is the [flag] column of the one row returned.
    [col] is one of the two names [detectSchema] can return, neither of
    which is a fixed column, so it is resolved among the extra columns. *)
Definition rookieQuery (db : Store) (col who : string) : option (option Z) :=
  i ← Sql.columnIndex (cards_extra_cols db) col;
  Some (Sql.MAX (map (fun c => rookieCase (extraAt (c_extra c) i))
                     (filter (fun c => athleteMatches who c = true) (cards db)))).

(** A row of the left join. *)
Record JoinRow := mkJoin {
  r_subset : option string;
  r_card_type : option string;
  r_numbering : option string
}.

Definition joinCard (db : Store) (i : nat) (c : CardRow) : list JoinRow :=
  match filter (fun p => p_card_id p = Some (c_id c)) (parallels db) with
  | [] => [mkJoin (c_subset c) (c_card_type c) None]
  | ps => map (fun p => mkJoin (c_subset c) (c_card_type c)
                               (extraAt (p_extra p) i)) ps
  end.

(** [SELECT c.subset, c.card_type, p.<numberingCol> AS numbering
     FROM cards c LEFT JOIN parallels p ON c.id = p.card_id
     WHERE LOWER(c.athlete_name) = LOWER(?)] *)
Definition joinQuery (db : Store) (col who : string) : option (list JoinRow) :=
  i ← Sql.columnIndex (parallels_extra_cols db) col;
  Some (filter (fun c => athleteMatches who c = true) (cards db)
          ≫= joinCard db i).

(** The [Map] of group sums, in insertion order. *)
Fixpoint mapGet (k : string) (m : list (string * Z)) : option Z :=
  match m with
  | [] => None
  | e :: m' => if decide (e.1 = k) then Some e.2 else mapGet k m'
  end.

Fixpoint mapSet (k : string) (v : Z) (m : list (string * Z))
  : list (string * Z) :=
  match m with
  | [] => [(k, v)]
  | e :: m' => if decide (e.1 = k) then (k, v) :: m' else e :: mapSet k v m'
  end.

Record Acc := mkAcc {
  group : list (string * Z);
  totalNumbered : Z;
  autographNumbered : Z;
  autographRelicNumbered : Z
}.

Definition keyOf (subset cardType : string) : string :=
  subset +:+ "||" +:+ cardType.

(** One turn of [for (const r of rows)].  The sums are those of the
    integers; the program adds doubles, which gives the same values as
    long as they stay within [exactLimit] (see [exactRun] below). *)
Definition loopBody (a : Acc) (r : JoinRow) : Acc :=
  let subset := Js.orEmpty (r_subset r) in
  let cardType := Js.orEmpty (r_card_type r) in
  let key := keyOf subset cardType in
  let n := Js.NumberOrZero (r_numbering r) in
  let sLc := Js.toLowerCase subset in
  {| group := mapSet key (default 0 (mapGet key (group a)) + n) (group a);
     totalNumbered := totalNumbered a + n;
     autographNumbered :=
       if String.eqb sLc "autograph" then autographNumbered a + n
       else autographNumbered a;
     autographRelicNumbered :=
       if String.eqb sLc "autograph relic" then autographRelicNumbered a + n
       else autographRelicNumbered a |}.

Definition loop (rows : list JoinRow) : Acc :=
  foldl loopBody (mkAcc [] 0 0 0) rows.

(** [Array.from(group.entries()).map(...)] *)
Definition entryOf (e : string * Z) : BreakdownEntry :=
  let parts := Js.split2 e.1 in
  mkEntry (parts !! 0%nat) (parts !! 1%nat) e.2.

(** [new Set(breakdown.map(b => (b.cardType || '').trim())).size] *)
Definition countCardTypes (bd : list BreakdownEntry) : nat :=
  length (remove_dups (map (fun b => Js.trim (Js.orEmpty (b_cardType b))) bd)).

Definition zeroSummary (who : string) (rookie : bool) : Summary :=
  mkSummary who rookie 0 0 0 0 [].

Definition aggregate (who : string) (rookie : bool) (rows : list JoinRow)
  : Summary :=
  let a := loop rows in
  let bd := map entryOf (group a) in
  mkSummary who rookie (countCardTypes bd) (totalNumbered a)
            (autographNumbered a) (autographRelicNumbered a) bd.

(** The rookie flag, as the handler computes it before anything else. *)
Definition rookieFlag (db : Store) (rookieCol : option string) (who : string)
  : option bool :=
  match rookieCol with
  | Some col =>
      flag ← rookieQuery db col who;
      Some (bool_decide (flag = Some 1))
  | None => Some false
  end.

(** The body of [try]; [None] is a rejected query, which [catch] turns
    into the 500 response. *)
Definition tryBlock (db : Store) (who : string) : option Summary :=
  let '(rookieCol, numberingCol) := detectSchema db in
  rookie ← rookieFlag db rookieCol who;
  match numberingCol with
  | None => Some (zeroSummary who rookie)
  | Some ncol =>
      rows ← joinQuery db ncol who;
      match rows with
      | [] => Some (zeroSummary who rookie)
      | _ => Some (aggregate who rookie rows)
      end
  end.

(** [GET /api/athlete-summary] *)
Definition athleteSummary (data : DataDir) (sport set who : option string)
  : Response :=
  if negb (Js.truthy sport) || negb (Js.truthy set) || negb (Js.truthy who)
  then BadRequest "Missing sport, set, or athlete parameter"
  else
    match openDbForChecklist data sport set with
    | None => NotFound "Checklist not found"
    | Some db =>
        match tryBlock db (Js.orEmpty who) with
        | Some s => Json s
        | None => ServerError "DB query error"
        end
    end.

End AthleteApi.

(** ** [app.js]: [POST /upload-checklist] *)

(** A parsed row: normalized header -> cell text. *)
Abbreviation Row := (gmap string string).

(** What [csv-parser] emits for the uploaded file: the headers, already
    normalized by [mapHeaders], and the rows. *)
Record CsvFile := mkCsv {
  headers : list string;
  rows : list Row
}.

Module Upload.

(** [header.trim().toLowerCase().replace(/\s+/g, '_')] *)
Fixpoint collapseSpaces (inRun : bool) (s : string) : string :=
  match s with
  | EmptyString => EmptyString
  | String c s' =>
      if Js.isJsSpace c
      then if inRun then collapseSpaces true s'
           else String "_" (collapseSpaces true s')
      else String c (collapseSpaces false s')
  end.

Definition mapHeaders (header : string) : string :=
  collapseSpaces false (Js.toLowerCase (Js.trim header)).

(** The five values bound to [insertCard]. *)
Record CardArgs := mkArgs {
  a_card_number : option string;
  a_athlete_name : option string;
  a_rookie : option string;
  a_subset : option string;
  a_card_type : option string
}.

Definition cardArgs (row : Row) : CardArgs :=
  mkArgs (row !! "card_number")
         (Js.or (Js.or (row !! "athlete_full_name") (row !! "athlete_name"))
                (row !! "athlete"))
         (row !! "rookie")
         (row !! "subset")
         (Js.or (row !! "type") (row !! "card_type")).

(** The store right after the two [CREATE TABLE] statements. *)
Definition createTables : Store :=
  mkStore ["rookie"] [] ["parallel_numbering"] [].

(** [AUTOINCREMENT] in a table nothing is ever deleted from. *)
Definition nextId {A} (tbl : list A) : Z := Z.of_nat (length tbl) + 1.

Definition insertCard (a : CardArgs) (tbl : list CardRow) : list CardRow :=
  tbl ++ [mkCard (nextId tbl) (a_card_number a) (a_athlete_name a)
                 (a_subset a) (a_card_type a) [a_rookie a]].

Definition insertParallel (cardId : Z) (name : string)
    (numbering : option string) (tbl : list ParallelRow) : list ParallelRow :=
  tbl ++ [mkParallel (nextId tbl) (Some cardId) (Some name) [numbering]].

Definition isParallelName (header : string) : bool :=
  let h := Js.toLowerCase header in
  Js.includes "parallel" h && negb (Js.includes "numbering" h).

(** [numberingHeader && String(numberingHeader).toLowerCase()
      .includes('numbering') ? row[numberingHeader] : ''] *)
Definition parallelNumbering (hdrs : list string) (row : Row) (idx : nat)
  : option string :=
  let numberingHeader := hdrs !! (idx + 1)%nat in
  if Js.truthy numberingHeader
     && Js.includes "numbering" (Js.toLowerCase (Js.orEmpty numberingHeader))
  then row !! Js.orEmpty numberingHeader
  else Some EmptyString.

(** The callback of [headers.forEach((header, idx) => ...)]. *)
Definition scanHeader (hdrs : list string) (row : Row) (cardId : Z)
    (idx : nat) (header : string) (tbl : list ParallelRow)
  : list ParallelRow :=
  if isParallelName header then
    let parallelName := row !! header in
    if Js.truthy parallelName
    then insertParallel cardId (Js.orEmpty parallelName)
                        (parallelNumbering hdrs row idx) tbl
    else tbl
  else tbl.

(** [forEach] over the headers still to visit, [idx] being the position of
    the first of them. *)
Fixpoint forEachHeader (hdrs : list string) (row : Row) (cardId : Z)
    (idx : nat) (todo : list string) (tbl : list ParallelRow)
  : list ParallelRow :=
  match todo with
  | [] => tbl
  | header :: todo' =>
      forEachHeader hdrs row cardId (S idx) todo'
                    (scanHeader hdrs row cardId idx header tbl)
  end.

Definition scanHeaders (hdrs : list string) (row : Row) (cardId : Z)
    (tbl : list ParallelRow) : list ParallelRow :=
  forEachHeader hdrs row cardId 0 hdrs tbl.

(** State of one upload once the file has been read. *)
Record State := mkState {
  st_store : Store;          (* the contents of the new store file *)
  st_pending : Z;            (* [pending] *)
  st_errors : list nat;      (* rows passed to [console.error] *)
  st_dbOpen : bool;          (* [db.close()] not called yet *)
  st_tmpPresent : bool;      (* the uploaded file is still on disk *)
  st_response : option Response
}.

(** [insertCard.finalize(); insertParallel.finalize(); db.close();
     fs.unlinkSync(filePath); res.redirect(...)] *)
Definition finish (st : State) : State :=
  mkState (st_store st) (st_pending st) (st_errors st) false false
          (Some (Redirect "/upload-success.html")).

(** Completion of [insertCard.run] for row number [i]: [failed] tells
    whether SQLite reported an error, in which case nothing was written. *)
Definition cardWritten (hdrs : list string) (failed : bool) (st : State)
    (i : nat) (row : Row) : State :=
  if failed then
    (* if (err) return console.error(err); *)
    mkState (st_store st) (st_pending st) (st_errors st ++ [i])
            (st_dbOpen st) (st_tmpPresent st) (st_response st)
  else
    let db := st_store st in
    let cardId := nextId (cards db) in          (* this.lastID *)
    let db' := mkStore (cards_extra_cols db)
                       (insertCard (cardArgs row) (cards db))
                       (parallels_extra_cols db)
                       (scanHeaders hdrs row cardId (parallels db)) in
    let pending := st_pending st - 1 in
    let st' := mkState db' pending (st_errors st) (st_dbOpen st)
                       (st_tmpPresent st) (st_response st) in
    if decide (pending = 0) then finish st' else st'.

(** The completions of the rows still to come.  The statements of one
    connection complete one after the other; the callbacks are taken in
    file order, and the parallel writes a callback issues are applied
    at once. *)
Fixpoint completions (hdrs : list string) (fails : nat -> bool)
    (i : nat) (todo : list Row) (st : State) : State :=
  match todo with
  | [] => st
  | row :: todo' =>
      completions hdrs fails (S i) todo'
                  (cardWritten hdrs (fails i) st i row)
  end.

(** [new sqlite3.Database(dbPath)] opens the file at [dbPath]: the store
    the file holds when there is one, a new file without tables ([None])
    otherwise. *)
Definition openDatabase (data : DataDir) (dbName : string) : option Store :=
  data !! dbName.

(** The two [CREATE TABLE] statements.  In a new file they make the two
    empty tables; in a file that already holds the tables they fail and
    leave the tables, with their rows, as they are (the handler does not
    get there: it removes the file before it opens it). *)
Definition runCreateTables (opened : option Store) : Store :=
  match opened with
  | None => createTables
  | Some db => db
  end.

(** The ['end'] handler, [db] being what the open store holds when the
    file has been read. *)
Definition onEndIn (db : Store) (fails : nat -> bool) (f : CsvFile) : State :=
  let st0 := mkState db (Z.of_nat (length (rows f))) [] true true None in
  if decide (st_pending st0 = 0) then finish st0
  else completions (headers f) fails 0 (rows f) st0.

(** The ['end'] handler over the tables just created in a new file. *)
Definition onEnd (fails : nat -> bool) (f : CsvFile) : State :=
  onEndIn createTables fails f.

(** What one request leaves behind. *)
Record Outcome := mkOutcome {
  o_data : DataDir;
  o_state : option State;      (* [None]: no store was opened *)
  o_response : option Response
}.

(** The handler.  [fails i] tells whether the card write of row [i] is
    reported as an error by the store. *)
Definition uploadChecklist (fails : nat -> bool) (data : DataDir)
    (sport setName : option string) (f : CsvFile) : Outcome :=
  if negb (Js.truthy sport) || negb (Js.truthy setName)
  then mkOutcome data None (Some (BadRequest "Missing sport or set name"))
  else
    let dbName := dbNameOf sport setName in
    let data1 := if decide (is_Some (data !! dbName))
                 then delete dbName data else data in
    let db := runCreateTables (openDatabase data1 dbName) in
    let st := onEndIn db fails f in
    mkOutcome (<[dbName := st_store st]> data1) (Some st) (st_response st).

End Upload.

(** The end-to-end example of the design document. *)
Definition exampleFile : CsvFile :=
  mkCsv ["card_number"; "athlete_full_name"; "rookie"; "subset"; "type";
         "parallel_1"; "parallel_1_numbering"]
        [ {[ "card_number" := "1"; "athlete_full_name" := "Jane Doe";
             "rookie" := "Rookie"; "subset" := "Base"; "type" := "Base";
             "parallel_1" := "Gold"; "parallel_1_numbering" := "25" ]} ].

Definition noFailure : nat -> bool := fun _ => false.

(** * The other routes *)

(** ** [routes/athlete-api.js]: [GET /api/athletes] *)

Module AthletesRoute.

Inductive Response :=
| Error (status : Z) (error : string)
| Ok (sport set : string) (count : nat) (athletes : list string).

(** [ORDER BY LOWER(c.athlete_name) ASC], bytes compared as SQLite's
    default collation does. *)
Definition lowerLe (a b : string) : Prop :=
  String.leb (Sql.LOWER a) (Sql.LOWER b) = true.

#[global] Instance lowerLe_dec : RelDecision lowerLe.
Proof. intros a b. unfold lowerLe. apply _. Defined.

(** [WHERE c.athlete_name IS NOT NULL AND TRIM(c.athlete_name) <> ''] *)
Definition selectedName (c : CardRow) : option string :=
  match c_athlete_name c with
  | Some n => if String.eqb (Sql.TRIM n) EmptyString then None else Some n
  | None => None
  end.

(** The query: one of each selected name, in the order of [lowerLe]. *)
Definition athleteNames (db : Store) : list string :=
  merge_sort lowerLe (remove_dups (omap selectedName (cards db))).

Definition athletes (data : DataDir) (sport set : option string) : Response :=
  if negb (Js.truthy sport) || negb (Js.truthy set)
  then Error 400 "Missing sport or set parameter"
  else
    match AthleteApi.openDbForChecklist data sport set with
    | None => Error 404 "Checklist not found"
    | Some db =>
        let athletes := athleteNames db in
        Ok (Js.orEmpty sport) (Js.orEmpty set) (length athletes) athletes
    end.

End AthletesRoute.

(** ** [routes/checklist-api.js]: [GET /api/checklist] *)

Module ChecklistRoute.

Record Row := mkRow {
  k_subset : option string;
  k_athlete_name : option string;
  k_card_type : option string;
  k_parallel_name : option string;
  k_parallel_numbering : option string
}.

Inductive Response :=
| Error (status : Z) (error : string)
| Ok (rows : list Row).

(** [SELECT name FROM sqlite_master WHERE type='table' AND
    name='parallels']: every store of this development has the table. *)
Definition parTable (db : Store) : list string := ["parallels"].

(** [names.includes(...) ? ... : ...] over the lower-cased column names. *)
Definition numberingColOf (db : Store) : option string :=
  let names := map Js.toLowerCase (table_info_parallels db) in
  if existsb (String.eqb "parallel_numbering") names
  then Some "parallel_numbering"
  else if existsb (String.eqb "numbering") names then Some "numbering"
       else None.

(** Ascending order with [NULL] before every text. *)
Definition nullsFirstLeb (a b : option string) : bool :=
  match a, b with
  | None, _ => true
  | Some _, None => false
  | Some x, Some y => String.leb x y
  end.

(** [ORDER BY LOWER(c.subset), LOWER(c.athlete_name)] *)
Definition orderLe (r1 r2 : Row) : Prop :=
  if decide (Sql.LOWER <$> k_subset r1 = Sql.LOWER <$> k_subset r2)
  then nullsFirstLeb (Sql.LOWER <$> k_athlete_name r1)
                     (Sql.LOWER <$> k_athlete_name r2) = true
  else nullsFirstLeb (Sql.LOWER <$> k_subset r1)
                     (Sql.LOWER <$> k_subset r2) = true.

#[global] Instance orderLe_dec : RelDecision orderLe.
Proof. intros a b. unfold orderLe. destruct (decide _); apply _. Defined.

Definition joinCard (db : Store) (i : nat) (c : CardRow) : list Row :=
  match filter (fun p => p_card_id p = Some (c_id c)) (parallels db) with
  | [] => [mkRow (c_subset c) (c_athlete_name c) (c_card_type c) None None]
  | ps => map (fun p => mkRow (c_subset c) (c_athlete_name c) (c_card_type c)
                              (p_parallel_name p) (extraAt (p_extra p) i)) ps
  end.

(** The query with the join; [None] is a rejected query. *)
Definition joinedRows (db : Store) (col : string) : option (list Row) :=
  i ← Sql.columnIndex (parallels_extra_cols db) col;
  Some (merge_sort orderLe (cards db ≫= joinCard db i)).

(** The query over [cards] alone. *)
Definition cardRows (db : Store) : list Row :=
  merge_sort orderLe
    (map (fun c => mkRow (c_subset c) (c_athlete_name c) (c_card_type c)
                         None None) (cards db)).

Definition tryBlock (db : Store) : option (list Row) :=
  let hasParallels := bool_decide (0 < length (parTable db))%nat in
  let numberingCol := if hasParallels then numberingColOf db else None in
  match numberingCol with
  | Some col => if hasParallels then joinedRows db col else Some (cardRows db)
  | None => Some (cardRows db)
  end.

Definition checklist (data : DataDir) (sport set : option string) : Response :=
  if negb (Js.truthy sport) || negb (Js.truthy set)
  then Error 400 "Missing sport or set parameter"
  else
    match AthleteApi.openDbForChecklist data sport set with
    | None => Error 404 "Checklist not found"
    | Some db =>
        match tryBlock db with
        | Some rows => Ok rows
        | None => Error 500 "DB query error"
        end
    end.

End ChecklistRoute.

(** ** [routes/card-set-api.js]: [GET /api/card-sets] *)

Module CardSetsRoute.

Inductive Response :=
| Error (status : Z) (error : string)
| Ok (files : list string).

Fixpoint dropChars (n : nat) (s : string) : string :=
  match n, s with
  | O, _ => s
  | S _, EmptyString => EmptyString
  | S n', String _ s' => dropChars n' s'
  end.

Fixpoint takeChars (n : nat) (s : string) : string :=
  match n, s with
  | O, _ => EmptyString
  | S _, EmptyString => EmptyString
  | S n', String c s' => String c (takeChars n' s')
  end.

(** [s.endsWith(suffix)] *)
Definition endsWith (suffix s : string) : bool :=
  String.eqb (dropChars (String.length s - String.length suffix) s) suffix.

(** [s.slice(start, -3)] *)
Definition sliceButLast3 (start : nat) (s : string) : string :=
  takeChars (String.length s - 3 - start) (dropChars start s).

(** [s.replace(/_/g, ' ')] *)
Fixpoint underscoresToSpaces (s : string) : string :=
  match s with
  | EmptyString => EmptyString
  | String c s' =>
      String (if decide (c = "_"%char) then " "%char else c)
             (underscoresToSpaces s')
  end.

(** [fs.readdirSync(dataDir)] *)
Definition readdirSync (data : DataDir) : list string :=
  (map_to_list data).*1.

(** The handler.  [localeSort] is [.sort((a, b) => a.localeCompare(b))],
    whose order is the host's. *)
Definition cardSets (localeSort : list string -> list string)
    (data : DataDir) (sport : option string) : Response :=
  if negb (Js.truthy sport) then Error 400 "Missing sport parameter"
  else
    let sportPrefix := sanitizeFileName sport +:+ "_" in
    let files :=
      map (fun f => underscoresToSpaces
                      (sliceButLast3 (String.length sportPrefix) f))
          (filter (fun f => Js.startsWith sportPrefix (Js.toLowerCase f)
                            && endsWith ".db" f = true)
                  (readdirSync data)) in
    Ok (localeSort files).

End CardSetsRoute.

(** ** [app.js]: [GET /checklist], the paged viewer *)

Module LegacyChecklist.

Inductive Response :=
| NotFound (error : string)
| ServerError (error : string)
| Ok (cards : list CardRow) (totalPages : Z).

Definition pageSize : Z := 50.

(** [ORDER BY id] *)
Definition idLe (a b : CardRow) : Prop := c_id a ≤ c_id b.

#[global] Instance idLe_dec : RelDecision idLe.
Proof. intros a b. unfold idLe. apply _. Defined.

(** [Math.ceil(a / b)] for a count [a] and a positive [b]. *)
Definition ceilDiv (a b : Z) : Z := - ((- a) / b).

(** [LIMIT ? OFFSET ?]: a negative offset counts as zero. *)
Definition limitOffset {A} (limit offset : Z) (l : list A) : list A :=
  take (Z.to_nat limit) (drop (Z.to_nat offset) l).

(** A value bound to a [?] of a statement. *)
Inductive SqlValue :=
| SqlInteger (z : Z)
| SqlNull.

(** [(page - 1) * pageSize], as it is bound to the statement.  [page] is
    the number 1 when the parameter is absent, else the text of the query
    string, which the subtraction turns into a number.  An integer gives
    an integer, taken here as long as the product stays within
    [exactLimit]; [NaN] gives [NaN], which is bound as [NULL].  [None]:
    the text is one the embedding does not read (a fraction such as
    "1.5" is a number to the program, and gives an offset that is not a
    multiple of the page size, or not an integer at all). *)
Definition offsetOf (page : option string) : option SqlValue :=
  match page with
  | None => Some (SqlInteger ((1 - 1) * pageSize))
  | Some s =>
      match readNumber s with
      | IsInteger n =>
          if decide (Z.abs ((n - 1) * pageSize) ≤ exactLimit)
          then Some (SqlInteger ((n - 1) * pageSize))
          else None
      | IsNaN => Some SqlNull
      | NotModelled => None
      end
  end.

(** The [SELECT COUNT] of the rows of [cards]; a store has its [cards]
    table, so the query is never rejected. *)
Definition countQuery (db : Store) : option Z :=
  Some (Z.of_nat (length (cards db))).

(** [SELECT * FROM cards ORDER BY id LIMIT ? OFFSET ?]: rejected when the
    offset is not an integer. *)
Definition pageQuery (db : Store) (limit : Z) (offset : SqlValue)
  : option (list CardRow) :=
  match offset with
  | SqlInteger o => Some (limitOffset limit o (merge_sort idLe (cards db)))
  | SqlNull => None
  end.

(** The handler; [page] is the text of the query parameter, [None] when
    the parameter is absent.  The result is [None] where [offsetOf] is. *)
Definition checklist (data : DataDir) (sport set : option string)
    (page : option string) : option Response :=
  match data !! dbNameOf sport set with
  | None => Some (NotFound "Checklist not found")
  | Some db =>
      offset ← offsetOf page;
      match countQuery db with
      | None => Some (ServerError "DB count error")
      | Some count =>
          let totalPages := ceilDiv count pageSize in
          match pageQuery db pageSize offset with
          | None => Some (ServerError "DB query error")
          | Some rows => Some (Ok rows totalPages)
          end
      end
  end.

End LegacyChecklist.

(** * Vocabulary of the properties *)

(** A table has a column [name], up to ASCII case. *)
Definition hasColumn (cols : list string) (name : string) : Prop :=
  ∃ c, c ∈ cols ∧ Js.toLowerCase c = name.

(** A card of [who] whose value in column [col] reads "rookie" once
    trimmed and lowercased. *)
Definition rookieCard (db : Store) (col who : string) (c : CardRow) : Prop :=
  c ∈ cards db ∧
  (∃ n, c_athlete_name c = Some n ∧ Sql.LOWER n = Sql.LOWER who) ∧
  ∃ i v, Sql.columnIndex (cards_extra_cols db) col = Some i ∧
         extraAt (c_extra c) i = Some v ∧
         Sql.LOWER (Sql.TRIM v) = "rookie".

(** Sum of the per-group totals of a breakdown. *)
Definition sumTotals (bd : list BreakdownEntry) : Z :=
  foldr (fun b acc => b_total b + acc) 0 bd.

(** The group's subset equals [name] without regard to case. *)
Definition subsetIs (name : string) (b : BreakdownEntry) : bool :=
  match b_subset b with
  | Some s => String.eqb (Js.toLowerCase s) name
  | None => false
  end.

(** The part of the sum that comes from the groups satisfying [P]. *)
Definition sumTotalsWhere (P : BreakdownEntry -> bool)
    (bd : list BreakdownEntry) : Z :=
  sumTotals (List.filter P bd).

(** Sum of the values of the map whose key satisfies [P]. *)
Definition sumKeys (P : string -> bool) (m : list (string * Z)) : Z :=
  foldr (fun e acc => (if P e.1 then e.2 else 0) + acc) 0 m.

Definition keySubsetIs (name k : string) : bool :=
  subsetIs name (AthleteApi.entryOf (k, 0)).

(** Two cards of one athlete, an autograph numbered "10" and a base card
    whose parallel is numbered "-20". *)
Definition negativeStore : Store :=
  mkStore ["rookie"]
          [mkCard 1 None (Some "Jane Doe") (Some "Autograph") None [None];
           mkCard 2 None (Some "Jane Doe") (Some "Base") None [None]]
          ["parallel_numbering"]
          [mkParallel 1 (Some 1) (Some "Gold") [Some "10"];
           mkParallel 2 (Some 2) (Some "Adjustment") [Some "-20"]].

Definition negativeFile : CsvFile :=
  mkCsv ["athlete"; "subset"; "parallel_1"; "parallel_1_numbering"]
        [ {[ "athlete" := "Jane Doe"; "subset" := "Autograph";
             "parallel_1" := "Gold"; "parallel_1_numbering" := "10" ]};
          {[ "athlete" := "Jane Doe"; "subset" := "Base";
             "parallel_1" := "Adjustment"; "parallel_1_numbering" := "-20" ]} ].

(** Three cards of one athlete with the numberings "10", "5" and "25". *)
Definition autographStore : Store :=
  mkStore ["rookie"]
          [mkCard 1 None (Some "Jane Doe") (Some "Autograph") None [None];
           mkCard 2 None (Some "Jane Doe") (Some "AUTOGRAPH RELIC") None [None];
           mkCard 3 None (Some "Jane Doe") (Some "Base") None [None]]
          ["parallel_numbering"]
          [mkParallel 1 (Some 1) (Some "Gold") [Some "10"];
           mkParallel 2 (Some 2) (Some "Gold") [Some "5"];
           mkParallel 3 (Some 3) (Some "Gold") [Some "25"]].

(** One card without a card type (the file had no such column). *)
Definition untypedStore : Store :=
  mkStore ["rookie"]
          [mkCard 1 (Some "1") (Some "Jane Doe") (Some "Base") None [None]]
          ["parallel_numbering"] [].

Definition untypedFile : CsvFile :=
  mkCsv ["card_number"; "athlete"; "subset"]
        [ {[ "card_number" := "1"; "athlete" := "Jane Doe";
             "subset" := "Base" ]} ].

(** The count of card types as the design document words it: the distinct
    card types of the groups, trimmed, those empty after the trim left
    out. *)
Definition distinctNonBlankCardTypes (bd : list BreakdownEntry) : nat :=
  length (remove_dups
            (filter (fun t => t ≠ EmptyString)
                    (map (fun b => Js.trim (Js.orEmpty (b_cardType b))) bd))).

(** The upload has not been wound up: the store is open, the uploaded
    file is on disk and the caller has no answer. *)
Definition unfinished (st : Upload.State) : Prop :=
  Upload.st_dbOpen st = true ∧ Upload.st_tmpPresent st = true
  ∧ Upload.st_response st = None.

Definition finished (st : Upload.State) : Prop :=
  Upload.st_dbOpen st = false ∧ Upload.st_tmpPresent st = false
  ∧ Upload.st_response st = Some (Redirect "/upload-success.html").

(** Number of rows among [todo] (the first at position [i]) whose card
    write succeeds. *)
Fixpoint successes (fails : nat -> bool) (i : nat) (todo : list Row) : nat :=
  match todo with
  | [] => 0
  | _ :: todo' => (if fails i then 0 else 1) + successes fails (S i) todo'
  end.

Definition failFirst : nat -> bool := fun i => Nat.eqb i 0.

(** The numbering the design document pairs with the header at [idx]: the
    row's cell under the next header when that header contains
    "numbering", the empty string otherwise. *)
Definition pairedNumbering (hdrs : list string) (row : Row) (idx : nat)
  : option string :=
  match hdrs !! S idx with
  | Some next =>
      if Js.includes "numbering" (Js.toLowerCase next) then row !! next
      else Some EmptyString
  | None => Some EmptyString
  end.

(** The records the header at [idx] is to contribute for a row: one when
    the row's cell under it is non-empty, none otherwise. *)
Definition createdFor (hdrs : list string) (row : Row) (cardId : Z)
    (idx : nat) (header : string) (tbl : list ParallelRow)
  : list ParallelRow :=
  match row !! header with
  | Some v =>
      if decide (v = EmptyString) then []
      else [mkParallel (Upload.nextId tbl) (Some cardId) (Some v)
                       [pairedNumbering hdrs row idx]]
  | None => []
  end.

(** The design document's reading: each identity field is mapped, once per
    file, to the first header of its priority list that the file has, and
    every row is read through that mapping. *)
Definition fieldHeader (hdrs : list string) (candidates : list string)
  : option string :=
  List.find (fun h => bool_decide (h ∈ hdrs)) candidates.

Definition readField (hdrs : list string) (candidates : list string)
    (row : Row) : option string :=
  h ← fieldHeader hdrs candidates; row !! h.

Definition fixedMappingArgs (hdrs : list string) (row : Row)
  : Upload.CardArgs :=
  Upload.mkArgs
    (readField hdrs ["card_number"] row)
    (readField hdrs ["athlete_full_name"; "athlete_name"; "athlete"] row)
    (readField hdrs ["rookie"] row)
    (readField hdrs ["subset"] row)
    (readField hdrs ["type"; "card_type"] row).

(** The first non-empty cell of a row under the headers [candidates], the
    cell under [last] when there is none. *)
Definition firstNonEmptyCell (row : Row) (candidates : list string)
    (last : string) : option string :=
  match List.find (fun h => Js.truthy (row !! h)) candidates with
  | Some h => row !! h
  | None => row !! last
  end.

Definition twoNameFile : CsvFile :=
  mkCsv ["athlete_full_name"; "athlete_name"]
        [ {[ "athlete_full_name" := EmptyString; "athlete_name" := "Bob" ]} ].

(** A store whose rookie column has the legacy name and whose [parallels]
    table has no numbering column at all. *)
Definition legacyStore : Store :=
  mkStore ["is_rookie"]
          [mkCard 1 (Some "7") (Some "Jane Doe") (Some "Base") (Some "Base")
                  [Some "ROOKIE "]]
          []
          [mkParallel 1 (Some 1) (Some "Gold") []].

(** ** Vocabulary for what an upload leaves in the store *)

(** The rows among [todo] (the first at position [i]) whose card write
    succeeds, in file order. *)
Fixpoint successfulRows (fails : nat -> bool) (i : nat) (todo : list Row)
  : list Row :=
  match todo with
  | [] => []
  | row :: todo' =>
      if fails i then successfulRows fails (S i) todo'
      else row :: successfulRows fails (S i) todo'
  end.

(** The card a row is stored as under the identifier [id]. *)
Definition cardOf (id : Z) (row : Row) : CardRow :=
  let a := Upload.cardArgs row in
  mkCard id (Upload.a_card_number a) (Upload.a_athlete_name a)
         (Upload.a_subset a) (Upload.a_card_type a) [Upload.a_rookie a].

(** Rows stored one after the other, the first under [next]. *)
Fixpoint numberedCards (next : Z) (rs : list Row) : list CardRow :=
  match rs with
  | [] => []
  | r :: rs' => cardOf next r :: numberedCards (next + 1) rs'
  end.

(** The positions of the failing rows among [n] rows starting at [i]. *)
Fixpoint failedFrom (fails : nat -> bool) (i n : nat) : list nat :=
  match n with
  | O => []
  | S n' => if fails i then i :: failedFrom fails (S i) n'
            else failedFrom fails (S i) n'
  end.

(** Number of headers that name a parallel and under which the row has a
    non-empty cell. *)
Definition parallelCells (hdrs : list string) (row : Row) : nat :=
  length (List.filter
            (fun h => Upload.isParallelName h && Js.truthy (row !! h)) hdrs).

(** ** Vocabulary for names and group keys *)

(** A lower-case letter, a digit or an underscore. *)
Definition isFileNameChar (c : ascii) : bool :=
  let n := N_of_ascii c in
  (((97 <=? n) && (n <=? 122)) || ((48 <=? n) && (n <=? 57)) || (n =? 95))%N.

(** Neither white space nor an upper-case letter. *)
Definition isHeaderChar (c : ascii) : bool :=
  let n := N_of_ascii c in
  negb (Js.isJsSpace c) && negb ((65 <=? n) && (n <=? 90))%N.

(** The group key of a row of the join. *)
Definition rowKey (r : AthleteApi.JoinRow) : string :=
  AthleteApi.keyOf (Js.orEmpty (AthleteApi.r_subset r))
                   (Js.orEmpty (AthleteApi.r_card_type r)).

(** The sum of the numberings of the rows whose group key is [k]. *)
Definition groupSum (k : string) (rows : list AthleteApi.JoinRow) : Z :=
  foldr (fun r acc =>
           (if decide (rowKey r = k)
            then Js.NumberOrZero (AthleteApi.r_numbering r) else 0) + acc)
        0 rows.

(** A summary with the echoed athlete name replaced. *)
Definition withAthlete (who : string) (s : Summary) : Summary :=
  mkSummary who (isRookie s) (cardTypeCount s) (totalParallelCards s)
            (autographCount s) (autographRelicCount s) (breakdown s).

(** ** Vocabulary for the numbers the summary adds *)

(** The handler reads a numbering with [Number] and adds doubles; the
    embedding reads it with [Js.NumberOfString] and adds integers.  The
    definitions below delimit the runs on which the two agree. *)

(** A column value that [Number(v) || 0] and [Js.NumberOrZero] read
    alike: [NULL], or an ASCII text that is blank, an optionally signed
    run of digits, or surely not a number. *)
Definition exactNumbering (v : option string) : bool :=
  match v with
  | None => true
  | Some s =>
      match readNumber s with
      | IsInteger _ | IsNaN => true
      | NotModelled => false
      end
  end.

(** The sum of the magnitudes of the values read. *)
Definition absSum (vs : list (option string)) : Z :=
  foldr (fun v acc => Z.abs (Js.NumberOrZero v) + acc) 0 vs.

(** A run of the loop over values read alike by both, whose magnitudes
    sum to no more than [exactLimit]: every value the loop ever holds is
    then an integer within the limit, and each addition of doubles is
    exact. *)
Definition exactRun (vs : list (option string)) : bool :=
  forallb exactNumbering vs && (absSum vs <=? exactLimit).

(** The numberings the summary of [who] adds up: those of the rows its
    join returns for the detected numbering column. *)
Definition selectedNumberings (db : Store) (who : string)
  : list (option string) :=
  match (AthleteApi.detectSchema db).2 with
  | Some col =>
      match AthleteApi.joinQuery db col who with
      | Some rows => map AthleteApi.r_numbering rows
      | None => []
      end
  | None => []
  end.

(** Every number held by the accumulators of the loop is within [B]. *)
Definition within (B : Z) (a : AthleteApi.Acc) : Prop :=
  Z.abs (AthleteApi.totalNumbered a) ≤ B
  ∧ Z.abs (AthleteApi.autographNumbered a) ≤ B
  ∧ Z.abs (AthleteApi.autographRelicNumbered a) ≤ B
  ∧ Forall (fun e : string * Z => Z.abs e.2 ≤ B) (AthleteApi.group a).

(** ** Vocabulary for the paged viewer *)

(** The cards the viewer shows on page [p] of a store. *)
Definition pageOf (db : Store) (p : Z) : list CardRow :=
  LegacyChecklist.limitOffset LegacyChecklist.pageSize
    ((p - 1) * LegacyChecklist.pageSize)
    (merge_sort LegacyChecklist.idLe (cards db)).

(** * Properties *)

(** ** The primitives and the worked example, evaluated *)

Example split_ex1 : Js.split2 "a||||b" = ["a"; EmptyString; "b"].
Proof. reflexivity. Qed.
Example split_ex2 : Js.split2 "a|||b" = ["a"; "|b"].
Proof. reflexivity. Qed.
Example split_ex3 : Js.split2 "||" = [EmptyString; EmptyString].
Proof. reflexivity. Qed.
Example num_ex1 : Js.NumberOrZero (Some " -25 ") = -25.
Proof. reflexivity. Qed.
Example num_ex2 : Js.NumberOrZero (Some "/99") = 0.
Proof. reflexivity. Qed.
Example num_ex3 : Js.NumberOrZero (Some "-") = 0.
Proof. reflexivity. Qed.
Example trim_ex1 : Js.trim "  a b  " = "a b".
Proof. reflexivity. Qed.
Example lower_ex1 : Js.toLowerCase "ROOKIE " = "rookie ".
Proof. reflexivity. Qed.
Example includes_ex1 : Js.includes "parallel" "parallel_1_numbering" = true.
Proof. reflexivity. Qed.

Example mapHeaders_ex1 :
  Upload.mapHeaders "  Parallel 1   Numbering " = "parallel_1_numbering".
Proof. reflexivity. Qed.

Example end_to_end :
  AthleteApi.athleteSummary
    (Upload.o_data (Upload.uploadChecklist noFailure ∅ (Some "Football")
                                           (Some "2023 Prizm") exampleFile))
    (Some "football") (Some "2023 prizm") (Some "jane doe")
  = Json (mkSummary "jane doe" true 1 25 0 0
                    [mkEntry (Some "Base") (Some "Base") 25]).
Proof. vm_compute. reflexivity. Qed.


(** ** Schema detection and the rookie flag *)

Section AthleteFacts.
Import AthleteApi.

Lemma has_true cols name : has cols name = true ↔ hasColumn cols name.
Proof.
  unfold has, hasColumn. rewrite existsb_exists. split.
  - intros (c & Hin & Heq). exists c. split; [by apply list_elem_of_In|].
    by apply String.eqb_eq.
  - intros (c & Hin & Heq). exists c. split; [by apply list_elem_of_In|].
    by apply String.eqb_eq.
Qed.

Lemma has_false cols name : has cols name = false ↔ ¬ hasColumn cols name.
Proof.
  rewrite <- has_true. by rewrite not_true_iff_false.
Qed.

Lemma has_app a b name : has (a ++ b) name = has a name || has b name.
Proof. unfold has. apply existsb_app. Qed.

Lemma hasColumn_index cols name :
  Js.toLowerCase name = name →
  hasColumn cols name → is_Some (Sql.columnIndex cols name).
Proof.
  intros Hlow (c & Hin & Heq). unfold Sql.columnIndex.
  destruct (list_find_elem_of (fun c => Js.toLowerCase c = Js.toLowerCase name)
              cols c) as [[i y] Hf]; [done|by rewrite Hlow|].
  rewrite Hf. by eexists.
Qed.

Lemma rookieCol_index db col :
  (detectSchema db).1 = Some col →
  is_Some (Sql.columnIndex (cards_extra_cols db) col).
Proof.
  unfold detectSchema, table_info_cards. cbn [fst].
  rewrite !has_app.
  change (has ["id"; "card_number"; "athlete_name"; "subset"; "card_type"]
              "rookie") with false.
  change (has ["id"; "card_number"; "athlete_name"; "subset"; "card_type"]
              "is_rookie") with false.
  cbn [orb].
  destruct (has (cards_extra_cols db) "rookie") eqn:H1.
  - intros [= <-]. apply hasColumn_index; [done|by apply has_true].
  - destruct (has (cards_extra_cols db) "is_rookie") eqn:H2; [|done].
    intros [= <-]. apply hasColumn_index; [done|by apply has_true].
Qed.

Lemma numberingCol_index db col :
  (detectSchema db).2 = Some col →
  is_Some (Sql.columnIndex (parallels_extra_cols db) col).
Proof.
  unfold detectSchema, table_info_parallels. cbn [snd].
  rewrite !has_app.
  change (has ["id"; "card_id"; "parallel_name"] "parallel_numbering")
    with false.
  change (has ["id"; "card_id"; "parallel_name"] "numbering") with false.
  cbn [orb].
  destruct (has (parallels_extra_cols db) "parallel_numbering") eqn:H1.
  - intros [= <-]. apply hasColumn_index; [done|by apply has_true].
  - destruct (has (parallels_extra_cols db) "numbering") eqn:H2; [|done].
    intros [= <-]. apply hasColumn_index; [done|by apply has_true].
Qed.

(** The rookie query of the detected column is never rejected. *)
Lemma rookieFlag_total db who :
  is_Some (rookieFlag db (detectSchema db).1 who).
Proof.
  unfold rookieFlag. destruct (detectSchema db).1 as [col|] eqn:Hc; [|by eexists].
  destruct (rookieCol_index db col Hc) as [i Hi].
  unfold rookieQuery. rewrite Hi. cbn. by eexists.
Qed.

Lemma tryBlock_unfold db who :
  tryBlock db who =
  rookie ← rookieFlag db (detectSchema db).1 who;
  match (detectSchema db).2 with
  | None => Some (zeroSummary who rookie)
  | Some ncol =>
      rows ← joinQuery db ncol who;
      match rows with
      | [] => Some (zeroSummary who rookie)
      | _ => Some (aggregate who rookie rows)
      end
  end.
Proof. unfold tryBlock. by destruct (detectSchema db). Qed.

(** No query of the handler is rejected, whatever columns are missing. *)
Lemma tryBlock_total db who : is_Some (tryBlock db who).
Proof.
  rewrite tryBlock_unfold.
  destruct (rookieFlag_total db who) as [r ->]. cbn [mbind option_bind].
  destruct (detectSchema db).2 as [ncol|] eqn:Hn; [|by eexists].
  destruct (numberingCol_index db ncol Hn) as [i Hi].
  unfold joinQuery. rewrite Hi. cbn [mbind option_bind].
  by destruct (_ ≫= _); eexists.
Qed.

Lemma tryBlock_rookie db who s :
  tryBlock db who = Some s →
  rookieFlag db (detectSchema db).1 who = Some (isRookie s) ∧ athlete s = who.
Proof.
  rewrite tryBlock_unfold.
  destruct (rookieFlag db _ who) as [r|]; [|done]. cbn [mbind option_bind].
  destruct (detectSchema db).2 as [ncol|]; [|by intros [= <-]].
  destruct (joinQuery db ncol who) as [[|r0 rows]|]; cbn [mbind option_bind]; [| |done];
    by intros [= <-].
Qed.

Lemma foldr_max_flag x l :
  x = 0 ∨ x = 1 → (∀ z, z ∈ l → z = 0 ∨ z = 1) →
  (foldr Z.max x l = 1 ↔ x = 1 ∨ 1 ∈ l) ∧
  (foldr Z.max x l = 0 ∨ foldr Z.max x l = 1).
Proof.
  intros Hx. induction l as [|y l IH]; intros Hl.
  - cbn. split; [|done]. split; [by left|]. by intros [?|?%elem_of_nil].
  - assert (Hy : y = 0 ∨ y = 1) by (apply Hl; left).
    destruct IH as [IH1 IH2]; [intros z Hz; apply Hl; by right|].
    cbn [foldr]. split; [|lia].
    rewrite elem_of_cons. split.
    + intros Hmax. destruct (decide (y = 1)) as [->|]; [right; by left|].
      assert (Hf : foldr Z.max x l = 1) by lia.
      apply IH1 in Hf as [?|?]; [by left|by do 2 right].
    + intros [Hx1|[<-|Hin]]; [|lia|].
      * assert (foldr Z.max x l = 1) by (apply IH1; by left). lia.
      * assert (foldr Z.max x l = 1) by (apply IH1; by right). lia.
Qed.

Lemma MAX_flag l :
  (∀ x, x ∈ l → x = 0 ∨ x = 1) → Sql.MAX l = Some 1 ↔ 1 ∈ l.
Proof.
  destruct l as [|x l]; intros Hall; cbn.
  { split; [done|by intros ?%elem_of_nil]. }
  destruct (foldr_max_flag x l) as [H1 _].
  { apply Hall. left. }
  { intros z Hz. apply Hall. by right. }
  rewrite elem_of_cons. split.
  - intros [= Hm]. apply H1 in Hm as [->|?]; [by left|by right].
  - intros [<-|Hin]; f_equal; apply H1; [by left|by right].
Qed.

Lemma athleteMatches_true who c :
  athleteMatches who c = true ↔
  ∃ n, c_athlete_name c = Some n ∧ Sql.LOWER n = Sql.LOWER who.
Proof.
  unfold athleteMatches. destruct (c_athlete_name c) as [n|].
  - rewrite String.eqb_eq. split; [intros ?; by exists n|by intros (? & [= <-] & ?)].
  - split; [done|by intros (? & ? & ?)].
Qed.

Lemma rookieCase_one v :
  rookieCase v = 1 ↔ ∃ s, v = Some s ∧ Sql.LOWER (Sql.TRIM s) = "rookie".
Proof.
  unfold rookieCase. destruct v as [s|].
  - destruct (String.eqb _ _) eqn:E.
    + apply String.eqb_eq in E. split; [intros _; by exists s|done].
    + apply String.eqb_neq in E. split; [done|by intros (? & [= <-] & ?)].
  - split; [done|by intros (? & ? & ?)].
Qed.

Lemma rookieFlag_true db who :
  rookieFlag db (detectSchema db).1 who = Some true ↔
  ∃ col c, (detectSchema db).1 = Some col ∧ rookieCard db col who c.
Proof.
  unfold rookieFlag. destruct (detectSchema db).1 as [col|] eqn:Hc.
  2:{ split; [done|by intros (? & ? & ? & ?)]. }
  destruct (rookieCol_index db col Hc) as [i Hi].
  unfold rookieQuery. rewrite Hi. cbn [mbind option_bind].
  set (l := map _ _).
  assert (Hl : ∀ x, x ∈ l → x = 0 ∨ x = 1).
  { intros x (c & -> & _)%list_elem_of_fmap. unfold rookieCase.
    destruct (extraAt _ _); [|by left]. destruct (String.eqb _ _); auto. }
  split.
  - intros [= Hb]. apply bool_decide_eq_true in Hb.
    apply MAX_flag in Hb; [|done].
    apply list_elem_of_fmap in Hb as (c & Hone & Hin).
    apply list_elem_of_filter in Hin as [Hm Hin].
    symmetry in Hone. apply rookieCase_one in Hone as (v & Hv & Hr).
    exists col, c. split; [done|]. split; [done|].
    split; [by apply athleteMatches_true|]. by exists i, v.
  - intros (col' & c & [= <-] & Hin & Hm & (i' & v & Hi' & Hv & Hr)).
    assert (i' = i) as -> by congruence.
    f_equal. apply bool_decide_eq_true. apply MAX_flag; [done|].
    apply list_elem_of_fmap. exists c. split.
    + symmetry. apply rookieCase_one. by exists v.
    + apply list_elem_of_filter. split; [by apply athleteMatches_true|done].
Qed.

End AthleteFacts.

Section AthleteClaims.
Import AthleteApi.

Lemma athleteSummary_found (data : DataDir) sport set who db :
  Js.truthy sport = true → Js.truthy set = true → Js.truthy who = true →
  data !! dbNameOf sport set = Some db →
  athleteSummary data sport set who =
  match tryBlock db (Js.orEmpty who) with
  | Some s => Json s
  | None => ServerError "DB query error"
  end.
Proof.
  intros Hs Ht Hw Hdb. unfold athleteSummary, openDbForChecklist.
  by rewrite Hs, Ht, Hw, Hdb.
Qed.

Lemma athleteSummary_never_500 (data : DataDir) sport set who msg :
  athleteSummary data sport set who ≠ ServerError msg.
Proof.
  unfold athleteSummary. destruct (_ || _); [done|].
  destruct (openDbForChecklist _ _ _) as [db|]; [|done].
  by destruct (tryBlock_total db (Js.orEmpty who)) as [s ->].
Qed.

(** C8.  [detectSchema] names the rookie column of [cards] as [rookie] when
    a column of that name exists, else as [is_rookie] when that one exists,
    else not at all; it names the numbering column of [parallels] as
    [parallel_numbering], else [numbering], else not at all.  Whatever is
    missing, no query of the summary is rejected and the handler never
    answers with the server error. *)
Theorem detectSchema_prefers_canonical_names (db : Store) :
  (hasColumn (table_info_cards db) "rookie"
     ∧ (detectSchema db).1 = Some "rookie"
   ∨ ¬ hasColumn (table_info_cards db) "rookie"
     ∧ hasColumn (table_info_cards db) "is_rookie"
     ∧ (detectSchema db).1 = Some "is_rookie"
   ∨ ¬ hasColumn (table_info_cards db) "rookie"
     ∧ ¬ hasColumn (table_info_cards db) "is_rookie"
     ∧ (detectSchema db).1 = None)
  ∧ (hasColumn (table_info_parallels db) "parallel_numbering"
     ∧ (detectSchema db).2 = Some "parallel_numbering"
   ∨ ¬ hasColumn (table_info_parallels db) "parallel_numbering"
     ∧ hasColumn (table_info_parallels db) "numbering"
     ∧ (detectSchema db).2 = Some "numbering"
   ∨ ¬ hasColumn (table_info_parallels db) "parallel_numbering"
     ∧ ¬ hasColumn (table_info_parallels db) "numbering"
     ∧ (detectSchema db).2 = None)
  ∧ (∀ who, ∃ s, tryBlock db who = Some s)
  ∧ (∀ (data : DataDir) sport set who msg,
       athleteSummary (<[dbNameOf sport set := db]> data) sport set who
       ≠ ServerError msg).
Proof.
  unfold detectSchema. cbn [fst snd]. repeat split.
  - destruct (has (table_info_cards db) "rookie") eqn:H1.
    { left. split; [by apply has_true|done]. }
    right. apply has_false in H1.
    destruct (has (table_info_cards db) "is_rookie") eqn:H2.
    + left. by apply has_true in H2.
    + right. by apply has_false in H2.
  - destruct (has (table_info_parallels db) "parallel_numbering") eqn:H1.
    { left. split; [by apply has_true|done]. }
    right. apply has_false in H1.
    destruct (has (table_info_parallels db) "numbering") eqn:H2.
    + left. by apply has_true in H2.
    + right. by apply has_false in H2.
  - intros who. apply tryBlock_total.
  - intros. apply athleteSummary_never_500.
Qed.

(** C5.  The summary's [isRookie] is true exactly when a rookie column was
    detected and some card of the athlete (names compared without regard
    to case) holds, in that column, a value that reads "rookie" once
    trimmed and lowercased; the flag depends on [cards] alone, so that
    replacing the [parallels] table leaves it unchanged; and the value
    "ROOKIE " with a trailing space counts. *)
Theorem isRookie_iff_rookie_card (db : Store) (who : string) :
  ∃ s, tryBlock db who = Some s
    ∧ (isRookie s = true ↔
       ∃ col c, (detectSchema db).1 = Some col ∧ rookieCard db col who c)
    ∧ (∀ pcols ps, ∃ s',
         tryBlock (mkStore (cards_extra_cols db) (cards db) pcols ps) who
           = Some s'
         ∧ isRookie s' = isRookie s)
    ∧ rookieCase (Some "ROOKIE ") = 1.
Proof.
  destruct (tryBlock_total db who) as [s Hs]. exists s.
  destruct (tryBlock_rookie _ _ _ Hs) as [Hr _].
  split; [done|]. split; [|split; [|done]].
  - rewrite <- rookieFlag_true, Hr. split; [by intros ->|by intros [= ->]].
  - intros pcols ps.
    destruct (tryBlock_total (mkStore (cards_extra_cols db) (cards db) pcols ps)
                who) as [s' Hs'].
    exists s'. split; [done|].
    destruct (tryBlock_rookie _ _ _ Hs') as [Hr' _].
    assert (He : rookieFlag (mkStore (cards_extra_cols db) (cards db) pcols ps)
                   (detectSchema
                      (mkStore (cards_extra_cols db) (cards db) pcols ps)).1 who
                 = rookieFlag db (detectSchema db).1 who) by done.
    congruence.
Qed.

Lemma joinCard_nonempty db i c : joinCard db i c ≠ [].
Proof. unfold joinCard. by destruct (filter _ _). Qed.

Lemma joinQuery_nil db col who rows :
  joinQuery db col who = Some rows →
  rows = [] ↔ filter (fun c => athleteMatches who c = true) (cards db) = [].
Proof.
  unfold joinQuery. destruct (Sql.columnIndex _ _) as [i|]; [|done].
  cbn [mbind option_bind]. intros [= <-].
  destruct (filter _ (cards db)) as [|c l]; [done|].
  split; [|done]. cbn. intros [H _]%app_eq_nil. by apply joinCard_nonempty in H.
Qed.

Lemma rookieFlag_no_cards db who :
  filter (fun c => athleteMatches who c = true) (cards db) = [] →
  rookieFlag db (detectSchema db).1 who = Some false.
Proof.
  intros Hnil.
  destruct (rookieFlag db _ who) as [[|]|] eqn:Hr; [|done|].
  - apply rookieFlag_true in Hr as (col & c & _ & Hin & Hm & _).
    apply athleteMatches_true in Hm.
    assert (c ∈ filter (fun c => athleteMatches who c = true) (cards db))
      by by apply list_elem_of_filter.
    rewrite Hnil in H. by apply elem_of_nil in H.
  - by destruct (rookieFlag_total db who) as [? ?]; simplify_eq.
Qed.

(** C7.  A query against an existing store for which no numbering column
    is detected, or whose [WHERE] clause selects no card, is answered with
    the zero-filled summary, never with an error; when no card is selected
    its [isRookie] is false. *)
Theorem zero_filled_summary (data : DataDir) (sport set : option string)
    (who : string) (db : Store) :
  Js.truthy sport = true → Js.truthy set = true →
  Js.truthy (Some who) = true →
  data !! dbNameOf sport set = Some db →
  (detectSchema db).2 = None
    ∨ filter (fun c => athleteMatches who c = true) (cards db) = [] →
  ∃ r, athleteSummary data sport set (Some who)
         = Json (mkSummary who r 0 0 0 0 [])
     ∧ (filter (fun c => athleteMatches who c = true) (cards db) = []
        → r = false).
Proof.
  intros Hs Ht Hw Hdb Hcase.
  rewrite (athleteSummary_found _ _ _ _ db) by done. cbn [Js.orEmpty].
  rewrite tryBlock_unfold.
  destruct (rookieFlag_total db who) as [r Hr]. rewrite Hr.
  cbn [mbind option_bind]. exists r.
  assert (Hfalse : filter (fun c => athleteMatches who c = true) (cards db) = []
                   → r = false).
  { intros Hnil. rewrite (rookieFlag_no_cards _ _ Hnil) in Hr. congruence. }
  split; [|done].
  destruct (detectSchema db).2 as [ncol|] eqn:Hn; [|done].
  destruct Hcase as [?|Hnil]; [done|].
  destruct (numberingCol_index db ncol Hn) as [i Hi].
  destruct (joinQuery db ncol who) as [rows|] eqn:Hj.
  - cbn [mbind option_bind].
    apply (joinQuery_nil _ _ _ _ Hj) in Hnil. by rewrite Hnil.
  - unfold joinQuery in Hj. by rewrite Hi in Hj.
Qed.

Lemma detectSchema_rookieCol db col :
  hasColumn (table_info_cards db) "rookie" ∧ col = "rookie"
    ∨ ¬ hasColumn (table_info_cards db) "rookie"
      ∧ hasColumn (table_info_cards db) "is_rookie" ∧ col = "is_rookie" →
  (detectSchema db).1 = Some col.
Proof.
  unfold detectSchema. cbn [fst].
  intros [[H1 ->]|(H1 & H2 & ->)].
  - apply has_true in H1. by rewrite H1.
  - apply has_false in H1. apply has_true in H2. by rewrite H1, H2.
Qed.

Lemma detectSchema_no_numbering db :
  ¬ hasColumn (table_info_parallels db) "parallel_numbering" →
  ¬ hasColumn (table_info_parallels db) "numbering" →
  (detectSchema db).2 = None.
Proof.
  unfold detectSchema. cbn [snd]. intros H1 H2.
  apply has_false in H1. apply has_false in H2. by rewrite H1, H2.
Qed.

(** C10.  When the [parallels] table of the store has neither
    [parallel_numbering] nor [numbering] while [cards] has a [rookie]
    column, or failing that an [is_rookie] column, the handler answers
    with the zero-filled summary and its [isRookie] is the flag computed
    from [cards]: it is true whenever some card of the athlete reads
    "rookie" in that column, and false only when none does. *)
Theorem zero_summary_keeps_rookie_flag (data : DataDir)
    (sport set : option string) (who col : string) (db : Store) :
  Js.truthy sport = true → Js.truthy set = true →
  Js.truthy (Some who) = true →
  data !! dbNameOf sport set = Some db →
  ¬ hasColumn (table_info_parallels db) "parallel_numbering" →
  ¬ hasColumn (table_info_parallels db) "numbering" →
  hasColumn (table_info_cards db) "rookie" ∧ col = "rookie"
    ∨ ¬ hasColumn (table_info_cards db) "rookie"
      ∧ hasColumn (table_info_cards db) "is_rookie" ∧ col = "is_rookie" →
  ((∃ c, rookieCard db col who c) →
   athleteSummary data sport set (Some who)
   = Json (mkSummary who true 0 0 0 0 []))
  ∧ ((¬ ∃ c, rookieCard db col who c) →
     athleteSummary data sport set (Some who)
     = Json (mkSummary who false 0 0 0 0 [])).
Proof.
  intros Hs Ht Hw Hdb Hn1 Hn2 Hcol.
  rewrite (athleteSummary_found _ _ _ _ db) by done. cbn [Js.orEmpty].
  rewrite tryBlock_unfold, (detectSchema_no_numbering db Hn1 Hn2).
  pose proof (detectSchema_rookieCol db col Hcol) as Hc.
  pose proof (rookieFlag_true db who) as Hiff.
  destruct (rookieFlag_total db who) as [r Hr]. rewrite Hr in *.
  cbn [mbind option_bind]. unfold zeroSummary. split.
  - intros [c Hcard]. destruct Hiff as [_ Hiff].
    by rewrite (Some_inj _ _ (Hiff (ex_intro _ col (ex_intro _ c (conj Hc Hcard))))).
  - intros Hno. destruct r; [|done]. destruct Hiff as [Hiff _].
    destruct (Hiff eq_refl) as (col' & c & Hc' & Hcard).
    rewrite Hc in Hc'. injection Hc' as <-. destruct Hno. by exists c.
Qed.

End AthleteClaims.

(** ** Totals of the summary *)

Section Totals.
Import AthleteApi.

Lemma string_of_list_ascii_app l1 l2 :
  String.string_of_list_ascii (l1 ++ l2)
  = String.string_of_list_ascii l1 +:+ String.string_of_list_ascii l2.
Proof. induction l1 as [|a l1 IH]; simpl; [done|by rewrite IH]. Qed.

Lemma splitBars_other cur a t :
  a ≠ "|"%char → Js.splitBars cur (String a t) = Js.splitBars (a :: cur) t.
Proof.
  intros Ha. destruct a as [[] [] [] [] [] [] [] []]; try reflexivity.
  by destruct Ha.
Qed.

Lemma includes_bar_cons a s :
  Js.includes "|" (String a s) = false →
  a ≠ "|"%char ∧ Js.includes "|" s = false.
Proof.
  cbn [Js.includes Js.startsWith]. destruct (decide ("|"%char = a)) as [<-|Hne].
  - by destruct s.
  - cbn [orb]. intros ->. split; [by intros ->|done].
Qed.

Lemma append_empty_r s : s +:+ EmptyString = s.
Proof.
  induction s as [|a s IH]; [done|].
  change (String a (s +:+ EmptyString) = String a s). by rewrite IH.
Qed.

Lemma append_snoc s a t : (s +:+ String a EmptyString) +:+ t = s +:+ String a t.
Proof.
  induction s as [|b s IH]; [done|].
  change (String b ((s +:+ String a EmptyString) +:+ t) = String b (s +:+ String a t)).
  by rewrite IH.
Qed.

Lemma splitBars_key cur s c :
  Js.includes "|" s = false →
  Js.splitBars cur (keyOf s c) !! 0%nat
  = Some (String.string_of_list_ascii (rev cur) +:+ s).
Proof.
  revert cur. induction s as [|a s IH]; intros cur Hs.
  - rewrite append_empty_r. reflexivity.
  - apply includes_bar_cons in Hs as [Ha Hs].
    change (keyOf (String a s) c) with (String a (keyOf s c)).
    rewrite splitBars_other by done. rewrite IH by done.
    f_equal. cbn [rev]. rewrite string_of_list_ascii_app.
    cbn [String.string_of_list_ascii]. apply append_snoc.
Qed.

(** A subset without a bar is read back unchanged from the group key. *)
Lemma split2_key_subset s c :
  Js.includes "|" s = false → Js.split2 (keyOf s c) !! 0%nat = Some s.
Proof. intros Hs. unfold Js.split2. by rewrite splitBars_key. Qed.

Lemma sumKeys_cons P e m :
  sumKeys P (e :: m) = (if P e.1 then e.2 else 0) + sumKeys P m.
Proof. reflexivity. Qed.

Lemma sumKeys_mapSet P k n m :
  sumKeys P (mapSet k (default 0 (mapGet k m) + n) m)
  = sumKeys P m + (if P k then n else 0).
Proof.
  induction m as [|e m IH]; cbn [mapSet mapGet].
  - rewrite sumKeys_cons. cbn. destruct (P k); lia.
  - destruct (decide (e.1 = k)) as [<-|Hne].
    + rewrite !sumKeys_cons. cbn. destruct (P e.1); lia.
    + rewrite !sumKeys_cons, IH. lia.
Qed.

Lemma sumTotalsWhere_entries name g :
  sumTotalsWhere (subsetIs name) (map entryOf g) = sumKeys (keySubsetIs name) g.
Proof.
  induction g as [|[k v] g IH]; [done|].
  rewrite sumKeys_cons, <- IH. unfold sumTotalsWhere, keySubsetIs.
  cbn [map List.filter fst snd].
  change (subsetIs name (entryOf (k, v)))
    with (subsetIs name (entryOf (k, 0))).
  by destruct (subsetIs name (entryOf (k, 0))).
Qed.

Lemma sumTotals_entries g :
  sumTotals (map entryOf g) = sumKeys (fun _ => true) g.
Proof.
  induction g as [|[k v] g IH]; [done|].
  rewrite sumKeys_cons, <- IH. done.
Qed.

(** The loop keeps the running total equal to the sum of the group sums. *)
Lemma loop_total rows a :
  totalNumbered a = sumKeys (fun _ => true) (group a) →
  totalNumbered (foldl loopBody a rows)
  = sumKeys (fun _ => true) (group (foldl loopBody a rows)).
Proof.
  revert a. induction rows as [|r rows IH]; intros a Ha; [done|].
  cbn [foldl]. apply IH. cbn [loopBody totalNumbered group].
  rewrite sumKeys_mapSet, Ha. done.
Qed.

Lemma keySubsetIs_key name s c :
  Js.includes "|" s = false →
  keySubsetIs name (keyOf s c) = String.eqb (Js.toLowerCase s) name.
Proof.
  intros Hs. unfold keySubsetIs, subsetIs, entryOf. cbn [fst b_subset].
  by rewrite split2_key_subset.
Qed.

(** With bar-free subsets, the two autograph counters are the sums of the
    groups of that subset. *)
Lemma loop_autograph rows a :
  (∀ r, r ∈ rows → Js.includes "|" (Js.orEmpty (r_subset r)) = false) →
  autographNumbered a = sumKeys (keySubsetIs "autograph") (group a) →
  autographRelicNumbered a = sumKeys (keySubsetIs "autograph relic") (group a) →
  autographNumbered (foldl loopBody a rows)
    = sumKeys (keySubsetIs "autograph") (group (foldl loopBody a rows))
  ∧ autographRelicNumbered (foldl loopBody a rows)
    = sumKeys (keySubsetIs "autograph relic") (group (foldl loopBody a rows)).
Proof.
  revert a. induction rows as [|r rows IH]; intros a Hrows Ha Hr; [done|].
  cbn [foldl]. apply IH.
  - intros r' Hr'. apply Hrows. by right.
  - cbn [loopBody autographNumbered group]. rewrite sumKeys_mapSet.
    rewrite keySubsetIs_key by (apply Hrows; left). rewrite Ha.
    by destruct (String.eqb _ _); [|lia].
  - cbn [loopBody autographRelicNumbered group]. rewrite sumKeys_mapSet.
    rewrite keySubsetIs_key by (apply Hrows; left). rewrite Hr.
    by destruct (String.eqb _ _); [|lia].
Qed.

(** With non-negative numberings the two counters stay within the total. *)
Lemma loop_bound rows a :
  (∀ r, r ∈ rows → 0 ≤ Js.NumberOrZero (r_numbering r)) →
  autographNumbered a + autographRelicNumbered a ≤ totalNumbered a →
  autographNumbered (foldl loopBody a rows)
    + autographRelicNumbered (foldl loopBody a rows)
  ≤ totalNumbered (foldl loopBody a rows).
Proof.
  revert a. induction rows as [|r rows IH]; intros a Hrows Ha; [done|].
  cbn [foldl]. apply IH; [intros r' Hr'; apply Hrows; by right|].
  assert (Hn : 0 ≤ Js.NumberOrZero (r_numbering r)) by (apply Hrows; left).
  cbn [loopBody autographNumbered autographRelicNumbered totalNumbered].
  destruct (String.eqb (Js.toLowerCase _) "autograph") eqn:E1.
  - apply String.eqb_eq in E1. rewrite E1.
    change (String.eqb "autograph" "autograph relic") with false.
    cbv iota. lia.
  - destruct (String.eqb _ "autograph relic"); lia.
Qed.

Lemma Forall_mapSet (P : string * Z → Prop) k v m :
  P (k, v) → Forall P m → Forall P (mapSet k v m).
Proof.
  intros Hkv. induction 1 as [|e m He Hm IH]; cbn [mapSet].
  - by constructor.
  - destruct (decide _); constructor; done.
Qed.

Lemma Forall_mapGet (P : string * Z → Prop) k v m :
  Forall P m → mapGet k m = Some v → P (k, v).
Proof.
  induction 1 as [|e m He Hm IH]; cbn [mapGet]; [done|].
  destruct (decide _) as [<-|]; [|done]. intros [= <-]. by destruct e.
Qed.

Lemma loopBody_within B a r :
  within B a →
  within (B + Z.abs (Js.NumberOrZero (r_numbering r))) (loopBody a r).
Proof.
  intros (Ht & Ha & Hr & Hg). unfold within.
  cbn [loopBody totalNumbered autographNumbered autographRelicNumbered group].
  set (n := Js.NumberOrZero (r_numbering r)).
  split; [lia|]. split; [destruct (String.eqb _ _); lia|].
  split; [destruct (String.eqb _ _); lia|].
  apply Forall_mapSet.
  - cbn [snd]. destruct (mapGet _ _) as [v|] eqn:Hv; cbn [default].
    + pose proof (Forall_mapGet _ _ _ _ Hg Hv) as Hb. cbn [snd] in Hb.
      unfold id. lia.
    + unfold id. lia.
  - eapply Forall_impl; [exact Hg|]. intros e He. cbn beta in *. lia.
Qed.

(** The numbers the loop holds grow by at most the magnitudes read. *)
Lemma loop_within B a rows :
  within B a →
  within (B + absSum (map r_numbering rows)) (foldl loopBody a rows).
Proof.
  revert B a. induction rows as [|r rows IH]; intros B a Ha.
  - cbn. by rewrite Z.add_0_r.
  - cbn [foldl map absSum foldr]. fold (absSum (map r_numbering rows)).
    rewrite Z.add_assoc. apply IH. by apply loopBody_within.
Qed.

Lemma absSum_nonneg vs : 0 ≤ absSum vs.
Proof.
  induction vs as [|v vs IH]; [done|]. cbn [absSum foldr].
  fold (absSum vs). lia.
Qed.

Lemma absSum_app vs ws : absSum (vs ++ ws) = absSum vs + absSum ws.
Proof.
  induction vs as [|v vs IH]; [done|]. cbn [app absSum foldr].
  fold (absSum (vs ++ ws)) (absSum vs). lia.
Qed.

Lemma within_mono B B' a : B ≤ B' → within B a → within B' a.
Proof.
  intros HB (Ht & Ha & Hr & Hg). unfold within.
  split; [lia|]. split; [lia|]. split; [lia|].
  eapply Forall_impl; [exact Hg|]. intros e He. cbn beta in *. lia.
Qed.

Lemma exactRun_limit vs : exactRun vs = true → absSum vs ≤ exactLimit.
Proof. unfold exactRun. intros [_ H]%andb_prop. by apply Z.leb_le. Qed.

(** On an exact run the loop never holds a number beyond the limit. *)
Lemma loop_exact rows :
  exactRun (map r_numbering rows) = true → within exactLimit (loop rows).
Proof.
  intros H%exactRun_limit. unfold loop.
  eapply within_mono; [|apply (loop_within 0)].
  - lia.
  - unfold within. cbn. repeat split; try lia. constructor.
Qed.

(** Where the rows of the join come from. *)
Lemma joinQuery_rows db col who rows r :
  joinQuery db col who = Some rows → r ∈ rows →
  (∃ c, c ∈ cards db ∧ r_subset r = c_subset c)
  ∧ (r_numbering r = None
     ∨ ∃ p i, p ∈ parallels db ∧ r_numbering r = extraAt (p_extra p) i).
Proof.
  unfold joinQuery. destruct (Sql.columnIndex _ _) as [i|]; [|done].
  cbn [mbind option_bind]. intros [= <-].
  intros (c & Hr & Hc)%list_elem_of_bind.
  apply list_elem_of_filter in Hc as [_ Hc].
  unfold joinCard in Hr.
  destruct (filter _ (parallels db)) as [|p ps] eqn:Hf.
  - apply list_elem_of_singleton in Hr as ->. cbn. split; [by exists c|by left].
  - apply list_elem_of_fmap in Hr as (p' & -> & Hp'). cbn.
    split; [by exists c|]. right. exists p', i. split; [|done].
    rewrite <- Hf in Hp'. by apply list_elem_of_filter in Hp' as [_ ?].
Qed.

Lemma extraAt_nonneg vals i :
  (∀ v, v ∈ vals → 0 ≤ Js.NumberOrZero v) →
  0 ≤ Js.NumberOrZero (extraAt vals i).
Proof.
  intros H. unfold extraAt. destruct (vals !! i) as [v|] eqn:E; [|done].
  cbn. apply H. by eapply list_elem_of_lookup_2.
Qed.

End Totals.

Section TotalsClaims.
Import AthleteApi.

Example negativeStore_uploaded :
  Upload.o_data (Upload.uploadChecklist noFailure ∅ (Some "nba") (Some "x")
                                        negativeFile) !! "nba_x.db"
  = Some negativeStore.
Proof. vm_compute. reflexivity. Qed.

Example untypedStore_uploaded :
  Upload.o_data (Upload.uploadChecklist noFailure ∅ (Some "nba") (Some "x")
                                        untypedFile) !! "nba_x.db"
  = Some untypedStore.
Proof. vm_compute. reflexivity. Qed.

(** C3, as stated, fails: with a negative numbering the two autograph
    counters add up to more than the total. *)
Lemma autograph_counts_exceed_total :
  selectedNumberings negativeStore "Jane Doe" = [Some "10"; Some "-20"]
  ∧ exactRun (selectedNumberings negativeStore "Jane Doe") = true
  ∧ ∃ s, tryBlock negativeStore "Jane Doe" = Some s
     ∧ autographCount s = 10 ∧ autographRelicCount s = 0
     ∧ totalParallelCards s = -10
     ∧ ¬ (autographCount s + autographRelicCount s ≤ totalParallelCards s).
Proof.
  split; [reflexivity|]. split; [reflexivity|].
  eexists. split; [vm_compute; reflexivity|]. cbn.
  repeat split; lia.
Qed.

(** What the amended statement leaves aside: a subset that contains the
    group-key separator is not read back from the key, so a group of
    subset "Autograph" appears whose total [autographCount] never saw. *)
Example bar_in_subset :
  tryBlock (mkStore ["rookie"]
              [mkCard 1 None (Some "Jane Doe") (Some "Autograph||SP") None
                      [None]]
              ["parallel_numbering"]
              [mkParallel 1 (Some 1) (Some "Gold") [Some "5"]])
           "Jane Doe"
  = Some (mkSummary "Jane Doe" false 1 5 0 0
                    [mkEntry (Some "Autograph") (Some "SP") 5]).
Proof. vm_compute. reflexivity. Qed.

(** C3, amended.  For every store and athlete whose selected numberings
    form an exact run (each is [NULL], blank, an optionally signed run of
    digits or surely not a number, and their magnitudes sum to at most
    2^53, so that the doubles of the handler are the integers added
    here): [totalParallelCards] is the sum of the group totals of the
    breakdown; when no subset of the store contains a bar,
    [autographCount] and [autographRelicCount] are the parts of that sum
    from the groups whose subset is, without regard to case, exactly
    "autograph" and "autograph relic"; when every selected numbering reads
    as a non-negative number,
    [autographCount + autographRelicCount <= totalParallelCards]; and no
    counter and no group total exceeds 2^53 in magnitude. *)
Theorem summary_totals_from_groups (db : Store) (who : string) :
  exactRun (selectedNumberings db who) = true →
  ∃ s, tryBlock db who = Some s
    ∧ totalParallelCards s = sumTotals (breakdown s)
    ∧ ((∀ c, c ∈ cards db → Js.includes "|" (Js.orEmpty (c_subset c)) = false)
       → autographCount s
           = sumTotalsWhere (subsetIs "autograph") (breakdown s)
         ∧ autographRelicCount s
           = sumTotalsWhere (subsetIs "autograph relic") (breakdown s))
    ∧ ((∀ v, v ∈ selectedNumberings db who → 0 ≤ Js.NumberOrZero v)
       → autographCount s + autographRelicCount s ≤ totalParallelCards s)
    ∧ Z.abs (totalParallelCards s) ≤ exactLimit
    ∧ Z.abs (autographCount s) ≤ exactLimit
    ∧ Z.abs (autographRelicCount s) ≤ exactLimit
    ∧ ∀ b, b ∈ breakdown s → Z.abs (b_total b) ≤ exactLimit.
Proof.
  intros Hexact.
  destruct (tryBlock_total db who) as [s Hs]. exists s. split; [done|].
  rewrite tryBlock_unfold in Hs. unfold selectedNumberings in *.
  destruct (rookieFlag db _ who) as [rk|]; [|done]. cbn [mbind option_bind] in Hs.
  assert (Hzero : ∀ b : BreakdownEntry, b ∈ [] → Z.abs (b_total b) ≤ exactLimit)
    by (by intros b ?%elem_of_nil).
  destruct (detectSchema db).2 as [ncol|].
  2:{ injection Hs as <-. cbn. repeat split; try done; lia. }
  destruct (joinQuery db ncol who) as [rows|] eqn:Hj; [|done].
  cbn [mbind option_bind] in Hs.
  assert (Hagg : s = zeroSummary who rk ∨ s = aggregate who rk rows).
  { destruct rows; injection Hs as <-; [by left|by right]. }
  clear Hs. destruct Hagg as [->| ->]; [cbn; repeat split; try done; lia|].
  destruct (loop_exact rows Hexact) as (Wt & Wa & Wr & Wg).
  unfold aggregate.
  cbn [totalParallelCards autographCount autographRelicCount breakdown].
  split; [|split; [|split; [|split; [done|split; [done|split; [done|]]]]]].
  - rewrite sumTotals_entries. by apply loop_total.
  - intros Hbar. rewrite !sumTotalsWhere_entries.
    apply loop_autograph; [|done|done].
    intros r Hr. destruct (joinQuery_rows _ _ _ _ _ Hj Hr) as [(c & Hc & ->) _].
    by apply Hbar.
  - intros Hpos. apply loop_bound; [|done].
    intros r Hr. apply Hpos. apply list_elem_of_fmap. by exists r.
  - intros b (e & -> & He)%list_elem_of_fmap. cbn [entryOf b_total].
    rewrite Forall_forall in Wg. by apply Wg.
Qed.

Lemma summary_totals_from_groups_witness :
  ∃ s, tryBlock autographStore "Jane Doe" = Some s
    ∧ totalParallelCards s = sumTotals (breakdown s)
    ∧ autographCount s = sumTotalsWhere (subsetIs "autograph") (breakdown s)
    ∧ autographRelicCount s
        = sumTotalsWhere (subsetIs "autograph relic") (breakdown s)
    ∧ autographCount s + autographRelicCount s ≤ totalParallelCards s.
Proof.
  destruct (summary_totals_from_groups autographStore "Jane Doe" eq_refl)
    as (s & Hs & Ht & Ha & Hb & _).
  exists s. split; [exact Hs|]. split; [exact Ht|].
  assert (Hbar : ∀ c, c ∈ cards autographStore →
                      Js.includes "|" (Js.orEmpty (c_subset c)) = false).
  { intros c Hc. unfold autographStore in Hc. cbn [cards] in Hc.
    repeat (apply elem_of_cons in Hc as [->|Hc]; [reflexivity|]).
    by apply elem_of_nil in Hc. }
  assert (Hpos : ∀ v, v ∈ selectedNumberings autographStore "Jane Doe" →
                      0 ≤ Js.NumberOrZero v).
  { intros v Hv.
    let l := eval vm_compute in (selectedNumberings autographStore "Jane Doe")
    in change (selectedNumberings autographStore "Jane Doe") with l in Hv.
    repeat (apply elem_of_cons in Hv as [->|Hv]; [by vm_compute|]).
    by apply elem_of_nil in Hv. }
  destruct (Ha Hbar) as [Ha1 Ha2].
  split; [exact Ha1|]. split; [exact Ha2|]. exact (Hb Hpos).
Defined.

(** Texts that are, and texts that are not, read alike by [Number] and by
    the embedding; and a sum that leaves the exact range. *)
Example exactNumbering_examples :
  map exactNumbering
      [None; Some "25"; Some " -20 "; Some EmptyString; Some "/99";
       Some "n/a"; Some "-20.0"; Some "1e3"; Some "12.5"; Some "0x10";
       Some "5."; Some "Infinity"]
  = [true; true; true; true; true; true;
     false; false; false; false; false; false]
  ∧ exactRun [Some "9007199254740992"; Some "1"; Some "1"] = false
  ∧ exactRun [Some "9007199254740990"; Some "1"; Some "1"] = true.
Proof. by vm_compute. Qed.

Example autographStore_summary :
  tryBlock autographStore "jane doe"
  = Some (mkSummary "jane doe" false 1 40 10 5
            [mkEntry (Some "Autograph") (Some EmptyString) 10;
             mkEntry (Some "AUTOGRAPH RELIC") (Some EmptyString) 5;
             mkEntry (Some "Base") (Some EmptyString) 25]).
Proof. vm_compute. reflexivity. Qed.

Lemma remove_dups_blank (l : list string) :
  length (remove_dups l)
  = (length (remove_dups (filter (fun t => t ≠ EmptyString) l))
     + (if decide (EmptyString ∈ l) then 1 else 0))%nat.
Proof.
  induction l as [|x l IH]; [done|].
  cbn [remove_dups]. destruct (decide (x = EmptyString)) as [->|Hx].
  - rewrite filter_cons_False by (intros Hne; by apply Hne).
    rewrite (decide_True (P := EmptyString ∈ EmptyString :: l)) by left.
    revert IH. unfold decide_rel, decide.
    destruct (list_elem_of_dec EmptyString l); cbn [length]; lia.
  - rewrite filter_cons_True by done. cbn [remove_dups].
    assert (Hin : x ∈ filter (fun t => t ≠ EmptyString) l ↔ x ∈ l).
    { rewrite list_elem_of_filter. split; [by intros [_ ?]|done]. }
    assert (Hb : EmptyString ∈ x :: l ↔ EmptyString ∈ l).
    { rewrite elem_of_cons. split; [intros [?|?]; [congruence|done]|by right]. }
    revert IH. unfold decide_rel, decide.
    destruct (list_elem_of_dec x l),
             (list_elem_of_dec x (filter (fun t => t ≠ EmptyString) l)); try tauto;
      destruct (list_elem_of_dec EmptyString l), (list_elem_of_dec EmptyString (x :: l));
      try tauto; cbn [length]; lia.
Qed.

(** What [cardTypeCount] is on every breakdown: the documented count plus
    one whenever some group has a blank card type. *)
Lemma countCardTypes_blank bd :
  countCardTypes bd
  = (distinctNonBlankCardTypes bd
     + (if decide (EmptyString ∈ map (fun b => Js.trim (Js.orEmpty (b_cardType b))) bd)
        then 1 else 0))%nat.
Proof. apply remove_dups_blank. Qed.

(** C2 at a store whose only card of the athlete has no card type: no
    group has a card type that is non-empty after trimming, yet
    [cardTypeCount] is 1. *)
Theorem cardTypeCount_counts_blank_type :
  ∃ s, tryBlock untypedStore "Jane Doe" = Some s
     ∧ breakdown s = [mkEntry (Some "Base") (Some EmptyString) 0]
     ∧ distinctNonBlankCardTypes (breakdown s) = 0%nat
     ∧ cardTypeCount s = 1%nat.
Proof. eexists. split; [vm_compute; reflexivity|]. by vm_compute. Qed.

End TotalsClaims.

(** ** Completion of an upload *)

Section Completion.
Import Upload.

Lemma successes_le fails i todo : (successes fails i todo ≤ length todo)%nat.
Proof.
  revert i. induction todo as [|r todo IH]; intros i; cbn; [lia|].
  specialize (IH (S i)). destruct (fails i); lia.
Qed.

Lemma successes_lt fails i todo j :
  (i ≤ j < i + length todo)%nat → fails j = true →
  (successes fails i todo < length todo)%nat.
Proof.
  revert i. induction todo as [|r todo IH]; intros i Hj Hf; cbn in *; [lia|].
  destruct (decide (j = i)) as [->|Hne].
  - rewrite Hf. pose proof (successes_le fails (S i) todo). lia.
  - assert (successes fails (S i) todo < length todo)%nat
      by (apply IH; [lia|done]).
    destruct (fails i); lia.
Qed.

(** A failed card write is logged and its row leaves no trace in the
    store; the countdown is left as it was. *)
Lemma failed_write_drops_row hdrs st i row :
  st_store (cardWritten hdrs true st i row) = st_store st
  ∧ st_errors (cardWritten hdrs true st i row) = (st_errors st ++ [i])%list
  ∧ st_pending (cardWritten hdrs true st i row) = st_pending st.
Proof. done. Qed.

(** While more rows are awaited than can still succeed, the countdown
    never reaches zero and nothing is wound up. *)
Lemma completions_unfinished hdrs fails i todo st :
  unfinished st → Z.of_nat (successes fails i todo) < st_pending st →
  unfinished (completions hdrs fails i todo st)
  ∧ st_pending (completions hdrs fails i todo st)
    = st_pending st - Z.of_nat (successes fails i todo).
Proof.
  revert i st. induction todo as [|row todo IH]; intros i st Hu Hp.
  - cbn in *. split; [done|lia].
  - cbn [completions successes] in *. unfold cardWritten.
    destruct (fails i).
    + destruct (IH (S i)
                  (mkState (st_store st) (st_pending st) (st_errors st ++ [i])
                           (st_dbOpen st) (st_tmpPresent st) (st_response st)))
        as [H1 H2]; [done|cbn; lia|].
      split; [done|]. rewrite H2. cbn. lia.
    + destruct (decide (st_pending st - 1 = 0)) as [Hz|Hz]; [lia|].
      match goal with |- context [completions _ _ _ _ ?s] =>
        destruct (IH (S i) s) as [H1 H2] end;
        [done|cbn; lia|].
      split; [done|]. rewrite H2. cbn. lia.
Qed.

(** One failed card write is enough: the ['end'] handler and its callbacks
    never close the store, never remove the uploaded file and never
    answer. *)
Lemma onEnd_failure_unfinished fails f j :
  (j < length (rows f))%nat → fails j = true → unfinished (onEnd fails f).
Proof.
  intros Hj Hf. unfold onEnd, onEndIn. cbn [st_pending].
  destruct (decide (Z.of_nat (length (rows f)) = 0)) as [Hz|Hz]; [lia|].
  eapply proj1, completions_unfinished; [done|]. cbn [st_pending].
  assert (successes fails 0 (rows f) < length (rows f))%nat
    by (apply (successes_lt fails 0 (rows f) j); [lia|done]).
  lia.
Qed.

(** Without failures the countdown reaches zero on the last row. *)
Lemma completions_finished hdrs fails i todo st :
  todo ≠ [] → st_pending st = Z.of_nat (length todo) →
  (∀ j, (i ≤ j < i + length todo)%nat → fails j = false) →
  finished (completions hdrs fails i todo st).
Proof.
  revert i st. induction todo as [|row todo IH]; intros i st Hne Hp Hf; [done|].
  cbn [completions]. unfold cardWritten.
  rewrite (Hf i) by (cbn; lia).
  destruct todo as [|row' todo].
  - cbn in Hp. rewrite decide_True by lia. done.
  - rewrite decide_False by (cbn [length] in Hp; lia).
    apply IH; [done|cbn [st_pending length] in *; lia|].
    intros j Hj. apply Hf. cbn [length] in *. lia.
Qed.

Lemma onEnd_success_finished fails f :
  (∀ j, (j < length (rows f))%nat → fails j = false) →
  finished (onEnd fails f).
Proof.
  intros Hf. unfold onEnd, onEndIn. cbn [st_pending].
  destruct (decide (Z.of_nat (length (rows f)) = 0)) as [Hz|Hz]; [done|].
  apply completions_finished; [|done|intros j Hj; apply Hf; lia].
  intros Hnil. rewrite Hnil in Hz. done.
Qed.

(** C1 at a file of two rows whose first card write fails: the failure is
    logged, the row is dropped and the second row is stored with its
    parallel, but the store is never closed, the uploaded file is never
    removed and the caller never gets an answer. *)
Theorem failed_card_write_blocks_completion :
  let out := uploadChecklist failFirst ∅ (Some "nba") (Some "x") negativeFile in
  ∃ st, o_state out = Some st
    ∧ st_errors st = [0%nat]
    ∧ cards (st_store st)
      = [mkCard 1 None (Some "Jane Doe") (Some "Base") None [None]]
    ∧ parallels (st_store st)
      = [mkParallel 1 (Some 1) (Some "Adjustment") [Some "-20"]]
    ∧ st_pending st = 1
    ∧ st_dbOpen st = true
    ∧ st_tmpPresent st = true
    ∧ o_response out = None.
Proof. eexists. split; [reflexivity|]. by vm_compute. Qed.

End Completion.

(** ** The cards an upload writes *)

Section UploadCards.
Import Upload.

Lemma finish_store st : st_store (finish st) = st_store st.
Proof. done. Qed.

Lemma cardWritten_ok_store hdrs st i row :
  st_store (cardWritten hdrs false st i row)
  = mkStore (cards_extra_cols (st_store st))
            (insertCard (cardArgs row) (cards (st_store st)))
            (parallels_extra_cols (st_store st))
            (scanHeaders hdrs row (nextId (cards (st_store st)))
                         (parallels (st_store st))).
Proof. unfold cardWritten. by destruct (decide _). Qed.

Lemma cardWritten_ok_errors hdrs st i row :
  st_errors (cardWritten hdrs false st i row) = st_errors st.
Proof. unfold cardWritten. by destruct (decide _). Qed.

Lemma numberedCards_app next l1 l2 :
  numberedCards next (l1 ++ l2)
  = (numberedCards next l1
       ++ numberedCards (next + Z.of_nat (length l1)) l2)%list.
Proof.
  revert next. induction l1 as [|r l1 IH]; intros next.
  - cbn. by rewrite Z.add_0_r.
  - cbn [app numberedCards length]. rewrite IH. do 3 f_equal. lia.
Qed.

Lemma numberedCards_length next l :
  length (numberedCards next l) = length l.
Proof.
  revert next. induction l as [|r l IH]; intros next; [done|].
  cbn. by rewrite IH.
Qed.

Lemma completions_cards hdrs fails i todo st :
  cards (st_store (completions hdrs fails i todo st))
  = (cards (st_store st)
       ++ numberedCards (nextId (cards (st_store st)))
                        (successfulRows fails i todo))%list.
Proof.
  revert i st. induction todo as [|row todo IH]; intros i st.
  - cbn. by rewrite app_nil_r.
  - cbn [completions successfulRows]. rewrite IH. destruct (fails i).
    + done.
    + rewrite cardWritten_ok_store. cbn [cards numberedCards].
      unfold insertCard, cardOf. rewrite <- app_assoc. cbn [app].
      do 3 f_equal. unfold nextId. rewrite length_app. cbn [length]. lia.
Qed.

Lemma onEnd_cards fails f :
  cards (st_store (onEnd fails f))
  = numberedCards 1 (successfulRows fails 0 (rows f)).
Proof.
  unfold onEnd, onEndIn. cbn [st_pending]. destruct (decide _) as [Hz|Hz].
  - rewrite finish_store. destruct (rows f); [done|]. cbn in Hz. lia.
  - by rewrite completions_cards.
Qed.

End UploadCards.

(** ** Whole-file replace *)

Section Replace.
Import Upload.

Lemma opened_after_unlink (data : DataDir) dbName :
  runCreateTables
    (openDatabase (if decide (is_Some (data !! dbName))
                   then delete dbName data else data) dbName)
  = createTables.
Proof.
  unfold openDatabase. destruct (decide (is_Some (data !! dbName))) as [|Hno].
  - by rewrite lookup_delete_eq.
  - destruct (data !! dbName) eqn:E; [|done]. destruct Hno. by eexists.
Qed.

(** Thanks to the unlink the handler always works on a new file. *)
Lemma uploadChecklist_outcome fails (data : DataDir) sport setName f :
  Js.truthy sport = true → Js.truthy setName = true →
  uploadChecklist fails data sport setName f
  = mkOutcome (<[dbNameOf sport setName := st_store (onEnd fails f)]> data)
              (Some (onEnd fails f)) (st_response (onEnd fails f)).
Proof.
  intros Hs Ht. unfold uploadChecklist. rewrite Hs, Ht. cbn [negb orb].
  cbv zeta. rewrite opened_after_unlink. fold (onEnd fails f). f_equal.
  destruct (decide (is_Some (data !! dbNameOf sport setName))); [|done].
  apply insert_delete_eq.
Qed.

Lemma uploadChecklist_data fails (data : DataDir) sport setName f :
  Js.truthy sport = true → Js.truthy setName = true →
  o_data (uploadChecklist fails data sport setName f)
  = <[dbNameOf sport setName := st_store (onEnd fails f)]> data.
Proof. intros Hs Ht. by rewrite uploadChecklist_outcome. Qed.

(** What the unlink is for: the same handler run on the file that is
    already there would keep the old rows and add the new ones to them. *)
Example without_unlink_rows_pile_up :
  length (cards (st_store
            (onEndIn (runCreateTables
                        (openDatabase {[ "nba_x.db" := negativeStore ]}
                                      "nba_x.db"))
                     noFailure negativeFile))) = 4%nat.
Proof. reflexivity. Qed.

(** C9.  An upload with both names given first removes the store file of
    the sanitized name, so the store it opens is a new one: what it leaves
    under that name is built from the empty tables by the rows of the file
    alone (its cards are the successfully written rows, numbered from 1),
    whatever was stored under that name before; stores under other names
    are untouched; and uploading the same file again (the same card writes
    failing, if any) leaves the same data directory and gives the same
    outcome. *)
Theorem upload_replaces_store fails (data : DataDir) sport setName f :
  Js.truthy sport = true → Js.truthy setName = true →
  let out := uploadChecklist fails data sport setName f in
  o_data out !! dbNameOf sport setName = Some (st_store (onEnd fails f))
  ∧ (∀ old : Store,
       uploadChecklist fails (<[dbNameOf sport setName := old]> data)
                       sport setName f
       = out)
  ∧ (∀ db, o_data out !! dbNameOf sport setName = Some db →
           cards db = numberedCards 1 (successfulRows fails 0 (rows f)))
  ∧ (∀ name, name ≠ dbNameOf sport setName →
             o_data out !! name = data !! name)
  ∧ uploadChecklist fails (o_data out) sport setName f = out.
Proof.
  intros Hs Ht out. subst out.
  rewrite !uploadChecklist_outcome by done. cbn [o_data].
  split; [apply lookup_insert_eq|]. split; [|split; [|split]].
  - intros old. rewrite uploadChecklist_outcome by done.
    by rewrite insert_insert_eq.
  - intros db. rewrite lookup_insert_eq. intros [= <-]. apply onEnd_cards.
  - intros name Hne. by apply lookup_insert_ne.
  - by rewrite insert_insert_eq.
Qed.

Lemma upload_replaces_store_witness :
  let out := uploadChecklist noFailure {[ "nba_x.db" := untypedStore ]}
                             (Some "NBA") (Some "X") negativeFile in
  o_data out !! "nba_x.db" = Some negativeStore
  ∧ uploadChecklist noFailure (o_data out) (Some "NBA") (Some "X") negativeFile
    = out.
Proof.
  pose proof (upload_replaces_store noFailure {[ "nba_x.db" := untypedStore ]}
                (Some "NBA") (Some "X") negativeFile eq_refl eq_refl) as H.
  cbv zeta in H. destruct H as (H1 & _ & _ & _ & H5).
  split; [exact H1|exact H5].
Defined.

End Replace.

(** ** The parallel pairing scan *)

Section Scan.
Import Upload.

Lemma forEachHeader_app hdrs row cardId i l1 l2 tbl :
  forEachHeader hdrs row cardId i (l1 ++ l2) tbl
  = forEachHeader hdrs row cardId (i + length l1) l2
                  (forEachHeader hdrs row cardId i l1 tbl).
Proof.
  revert i tbl. induction l1 as [|h l1 IH]; intros i tbl.
  - cbn. by rewrite Nat.add_0_r.
  - cbn [app forEachHeader length]. rewrite IH. f_equal. lia.
Qed.

Lemma parallelNumbering_paired hdrs row idx :
  parallelNumbering hdrs row idx = pairedNumbering hdrs row idx.
Proof.
  unfold parallelNumbering, pairedNumbering.
  replace (idx + 1)%nat with (S idx) by lia.
  destruct (hdrs !! S idx) as [next|]; [|done].
  cbn [Js.orEmpty]. destruct (Js.truthy (Some next)) eqn:Ht; [done|].
  cbn in Ht. apply negb_false_iff, String.eqb_eq in Ht. by subst next.
Qed.

Lemma scanHeader_parallel hdrs row cardId idx header tbl :
  isParallelName header = true →
  scanHeader hdrs row cardId idx header tbl
  = (tbl ++ createdFor hdrs row cardId idx header tbl)%list.
Proof.
  intros Hp. unfold scanHeader, createdFor. rewrite Hp.
  destruct (row !! header) as [v|]; cbn [Js.truthy Js.orEmpty].
  - destruct (decide (v = EmptyString)) as [->|Hv].
    + cbn. by rewrite app_nil_r.
    + apply String.eqb_neq in Hv. rewrite Hv. cbn [negb].
      unfold insertParallel. by rewrite parallelNumbering_paired.
  - by rewrite app_nil_r.
Qed.

(** C4.  Let [header], at position [idx], contain "parallel" and not
    "numbering".  In the callback of a row's card write, the scan of the
    headers leaves the [parallels] table as the later headers make it from
    the table the earlier headers made, extended by what [header]
    contributes: one record of the new card, named by the row's cell under
    [header] and numbered by the cell under the next header if that one
    contains "numbering" and by the empty string otherwise, when the cell
    under [header] is non-empty; nothing when it is empty or absent. *)
Theorem parallel_header_yields_one_record hdrs (row : Row) st i idx header :
  hdrs !! idx = Some header →
  Js.includes "parallel" (Js.toLowerCase header) = true →
  Js.includes "numbering" (Js.toLowerCase header) = false →
  let cardId := nextId (cards (st_store st)) in
  let before :=
    forEachHeader hdrs row cardId 0 (take idx hdrs) (parallels (st_store st)) in
  let created :=
    match row !! header with
    | Some v =>
        if decide (v = EmptyString) then []
        else [mkParallel (nextId before) (Some cardId) (Some v)
                [match hdrs !! S idx with
                 | Some next =>
                     if Js.includes "numbering" (Js.toLowerCase next)
                     then row !! next else Some EmptyString
                 | None => Some EmptyString
                 end]]
    | None => []
    end in
  parallels (st_store (cardWritten hdrs false st i row))
  = forEachHeader hdrs row cardId (S idx) (drop (S idx) hdrs)
                  (before ++ created)%list.
Proof.
  intros Hidx Hpar Hnum cardId before created.
  assert (Hp : isParallelName header = true).
  { unfold isParallelName. by rewrite Hpar, Hnum. }
  assert (Hlen : (idx < length hdrs)%nat) by by eapply lookup_lt_Some.
  assert (Hpar' : parallels (st_store (cardWritten hdrs false st i row))
                  = scanHeaders hdrs row cardId (parallels (st_store st))).
  { unfold cardWritten. by destruct (decide _). }
  rewrite Hpar'. unfold scanHeaders.
  rewrite <- (take_drop (S idx) hdrs) at 2.
  rewrite forEachHeader_app. rewrite length_take_le by lia. cbn [Nat.add].
  f_equal. rewrite (take_S_r _ _ _ Hidx), forEachHeader_app.
  rewrite length_take_le by lia. cbn [Nat.add forEachHeader].
  by rewrite scanHeader_parallel.
Qed.

Lemma parallel_header_yields_one_record_witness :
  parallels (st_store
     (cardWritten (headers exampleFile) false
        (mkState createTables 1 [] true true None) 0
        {[ "card_number" := "1"; "athlete_full_name" := "Jane Doe";
           "rookie" := "Rookie"; "subset" := "Base"; "type" := "Base";
           "parallel_1" := "Gold"; "parallel_1_numbering" := "25" ]}))
  = [mkParallel 1 (Some 1) (Some "Gold") [Some "25"]].
Proof.
  exact (parallel_header_yields_one_record (headers exampleFile)
           {[ "card_number" := "1"; "athlete_full_name" := "Jane Doe";
              "rookie" := "Rookie"; "subset" := "Base"; "type" := "Base";
              "parallel_1" := "Gold"; "parallel_1_numbering" := "25" ]}
           (mkState createTables 1 [] true true None) 0 5 "parallel_1"
           eq_refl eq_refl eq_refl).
Defined.

End Scan.

(** ** Identity fields of a card *)

Section Identity.
Import Upload.

(** C6, as stated, fails: in a file with both [athlete_full_name] and
    [athlete_name], a row whose [athlete_full_name] cell is empty takes
    its athlete name from [athlete_name], not from the header the file
    level mapping selects. *)
Lemma athlete_name_not_fixed_per_file :
  let row : Row := {[ "athlete_full_name" := EmptyString; "athlete_name" := "Bob" ]} in
  rows twoNameFile = [row]
  ∧ fieldHeader (headers twoNameFile)
                ["athlete_full_name"; "athlete_name"; "athlete"]
    = Some "athlete_full_name"
  ∧ a_athlete_name (fixedMappingArgs (headers twoNameFile) row) = Some EmptyString
  ∧ a_athlete_name (cardArgs row) = Some "Bob"
  ∧ cardArgs row ≠ fixedMappingArgs (headers twoNameFile) row.
Proof. cbv zeta. repeat split; try by vm_compute. Qed.

Lemma or_truthy a b : Js.truthy a = true → Js.or a b = a.
Proof. unfold Js.or. by intros ->. Qed.

Lemma or_none b : Js.or None b = b.
Proof. reflexivity. Qed.

Ltac in_list :=
  repeat first [apply list_elem_of_here | apply list_elem_of_further].

Lemma readField_absent (hdrs : list string) (h : string) (row : Row) :
  (∀ k, is_Some (row !! k) → k ∈ hdrs) → h ∉ hdrs → row !! h = None.
Proof.
  intros Hdom Hh. destruct (row !! h) eqn:E; [|done].
  destruct Hh. apply Hdom. by eexists.
Qed.

(** C6, amended.  The athlete name of a card is, row by row, the first
    non-empty cell among [athlete_full_name], [athlete_name] and [athlete]
    (the [athlete] cell when none is non-empty), its card type the first
    non-empty cell among [type] and [card_type]; [card_number], [rookie]
    and [subset] are the cells under exactly those headers.  This is the
    fixed per-file mapping whenever the row has cells only under headers
    of the file and a non-empty cell under each of the five name and type
    headers the file has. *)
Theorem card_identity_resolution (hdrs : list string) (row : Row) :
  (a_card_number (cardArgs row) = row !! "card_number"
   ∧ a_rookie (cardArgs row) = row !! "rookie"
   ∧ a_subset (cardArgs row) = row !! "subset"
   ∧ a_athlete_name (cardArgs row)
     = firstNonEmptyCell row ["athlete_full_name"; "athlete_name"] "athlete"
   ∧ a_card_type (cardArgs row) = firstNonEmptyCell row ["type"] "card_type")
  ∧ ((∀ k, is_Some (row !! k) → k ∈ hdrs) →
     (∀ h, h ∈ ["athlete_full_name"; "athlete_name"; "athlete";
                "type"; "card_type"] →
           h ∈ hdrs → Js.truthy (row !! h) = true) →
     cardArgs row = fixedMappingArgs hdrs row).
Proof.
  split.
  - repeat split.
    + unfold firstNonEmptyCell. change (a_athlete_name (cardArgs row))
        with (Js.or (Js.or (row !! "athlete_full_name") (row !! "athlete_name"))
                    (row !! "athlete")).
      unfold Js.or. cbn [List.find].
      destruct (Js.truthy (row !! "athlete_full_name")) eqn:E1; [by rewrite E1|].
      by destruct (Js.truthy (row !! "athlete_name")).
    + unfold firstNonEmptyCell. change (a_card_type (cardArgs row))
        with (Js.or (row !! "type") (row !! "card_type")).
      unfold Js.or. cbn [List.find].
      by destruct (Js.truthy (row !! "type")).
  - intros Hdom Hfull.
    assert (Hone : ∀ h, readField hdrs [h] row = row !! h).
    { intros h. unfold readField, fieldHeader. cbn [List.find].
      destruct (bool_decide (h ∈ hdrs)) eqn:E; [done|].
      apply bool_decide_eq_false in E. cbn. symmetry.
      by apply (readField_absent hdrs). }
    assert (Hcell : ∀ h, h ∈ ["athlete_full_name"; "athlete_name"; "athlete";
                              "type"; "card_type"] →
              (h ∈ hdrs ∧ Js.truthy (row !! h) = true)
              ∨ ((h ∉ hdrs) ∧ row !! h = None)).
    { intros h Hh. destruct (decide (h ∈ hdrs)) as [Hin|Hout].
      - left. split; [done|by apply Hfull].
      - right. split; [done|by apply (readField_absent hdrs)]. }
    unfold cardArgs, fixedMappingArgs. rewrite !Hone. f_equal.
    + unfold readField, fieldHeader. cbn [List.find].
      destruct (Hcell "athlete_full_name" ltac:(in_list))
        as [[H1 T1]|[H1 N1]].
      { rewrite (bool_decide_eq_true_2 _ H1).
        by rewrite (or_truthy _ _ T1), (or_truthy _ _ T1). }
      rewrite N1, (bool_decide_eq_false_2 _ H1), or_none.
      destruct (Hcell "athlete_name" ltac:(in_list))
        as [[H2 T2]|[H2 N2]].
      { rewrite (bool_decide_eq_true_2 _ H2). by rewrite (or_truthy _ _ T2). }
      rewrite N2, (bool_decide_eq_false_2 _ H2), or_none.
      destruct (Hcell "athlete" ltac:(in_list))
        as [[H3 T3]|[H3 N3]].
      { by rewrite (bool_decide_eq_true_2 _ H3). }
      by rewrite N3, (bool_decide_eq_false_2 _ H3).
    + unfold readField, fieldHeader. cbn [List.find].
      destruct (Hcell "type" ltac:(in_list))
        as [[H1 T1]|[H1 N1]].
      { rewrite (bool_decide_eq_true_2 _ H1). by rewrite (or_truthy _ _ T1). }
      rewrite N1, (bool_decide_eq_false_2 _ H1), or_none.
      destruct (Hcell "card_type" ltac:(in_list))
        as [[H2 T2]|[H2 N2]].
      { by rewrite (bool_decide_eq_true_2 _ H2). }
      by rewrite N2, (bool_decide_eq_false_2 _ H2).
Qed.

Lemma card_identity_resolution_witness :
  cardArgs {[ "athlete" := "Jane Doe"; "card_type" := "Base" ]}
  = fixedMappingArgs ["athlete"; "card_type"]
                     {[ "athlete" := "Jane Doe"; "card_type" := "Base" ]}.
Proof.
  apply (card_identity_resolution ["athlete"; "card_type"]
           {[ "athlete" := "Jane Doe"; "card_type" := "Base" ]}).
  - intros k [v Hk]. apply lookup_insert_Some in Hk as [[<- _]|[_ Hk]].
    + in_list.
    + apply lookup_singleton_Some in Hk as [<- _]. in_list.
  - intros h _ Hh. apply elem_of_cons in Hh as [->|Hh]; [reflexivity|].
    apply list_elem_of_singleton in Hh as ->. reflexivity.
Defined.

End Identity.

(** ** Stores of an older schema *)

Section LegacyStores.
Import AthleteApi.

Example legacyStore_schema :
  detectSchema legacyStore = (Some "is_rookie", None).
Proof. reflexivity. Qed.

Example legacyStore_rookie :
  athleteSummary {[ "nba_x.db" := legacyStore ]}
                 (Some "NBA") (Some "X") (Some "jane doe")
  = Json (mkSummary "jane doe" true 0 0 0 0 []).
Proof. vm_compute. reflexivity. Qed.

Lemma zero_filled_summary_witness :
  (∃ r, athleteSummary {[ "nba_x.db" := legacyStore ]}
                       (Some "NBA") (Some "X") (Some "jane doe")
        = Json (mkSummary "jane doe" r 0 0 0 0 [])
      ∧ (filter (fun c => athleteMatches "jane doe" c = true)
                (cards legacyStore) = [] → r = false))
  ∧ (∃ r, athleteSummary {[ "nba_x.db" := negativeStore ]}
                         (Some "NBA") (Some "X") (Some "John Roe")
          = Json (mkSummary "John Roe" r 0 0 0 0 [])
        ∧ (filter (fun c => athleteMatches "John Roe" c = true)
                  (cards negativeStore) = [] → r = false)).
Proof.
  split.
  - apply (zero_filled_summary {[ "nba_x.db" := legacyStore ]}
             (Some "NBA") (Some "X") "jane doe" legacyStore);
      [reflexivity|reflexivity|reflexivity|reflexivity|].
    left. reflexivity.
  - apply (zero_filled_summary {[ "nba_x.db" := negativeStore ]}
             (Some "NBA") (Some "X") "John Roe" negativeStore);
      [reflexivity|reflexivity|reflexivity|reflexivity|].
    right. reflexivity.
Defined.

Lemma zero_summary_keeps_rookie_flag_witness :
  athleteSummary {[ "nba_x.db" := legacyStore ]}
                 (Some "NBA") (Some "X") (Some "jane doe")
  = Json (mkSummary "jane doe" true 0 0 0 0 []).
Proof.
  apply (zero_summary_keeps_rookie_flag {[ "nba_x.db" := legacyStore ]}
           (Some "NBA") (Some "X") "jane doe" "is_rookie" legacyStore);
    [reflexivity|reflexivity|reflexivity|reflexivity| | | |].
  - apply has_false. reflexivity.
  - apply has_false. reflexivity.
  - right. split; [apply has_false; reflexivity|].
    split; [apply has_true; reflexivity|reflexivity].
  - exists (mkCard 1 (Some "7") (Some "Jane Doe") (Some "Base") (Some "Base")
                   [Some "ROOKIE "]).
    split; [apply list_elem_of_here|].
    split; [by exists "Jane Doe"|].
    exists 0%nat, "ROOKIE ". by repeat split.
Defined.

End LegacyStores.

(** * Further properties of the upload *)

Section UploadInvariants.
Import Upload.

Lemma failure_or_not (fails : nat -> bool) n :
  (∀ j, (j < n)%nat → fails j = false) ∨ (∃ j, (j < n)%nat ∧ fails j = true).
Proof.
  induction n as [|n [IH|(j & Hj & Hf)]].
  - left. intros j Hj. lia.
  - destruct (fails n) eqn:E.
    + right. exists n. split; [lia|done].
    + left. intros j Hj. destruct (decide (j = n)) as [->|]; [done|].
      apply IH. lia.
  - right. exists j. split; [lia|done].
Qed.

(** X1.  The caller is answered, the store closed and the uploaded file removed
    exactly when no card write of the file fails; otherwise none of the
    three ever happens. *)
Theorem upload_answers_iff_no_write_fails fails (data : DataDir)
    sport setName f :
  Js.truthy sport = true → Js.truthy setName = true →
  let out := uploadChecklist fails data sport setName f in
  (o_response out = Some (Redirect "/upload-success.html")
   ↔ ∀ j, (j < length (rows f))%nat → fails j = false)
  ∧ (o_response out = None
     ↔ ∃ j, (j < length (rows f))%nat ∧ fails j = true)
  ∧ (finished (onEnd fails f) ∨ unfinished (onEnd fails f)).
Proof.
  intros Hs Ht out. subst out. rewrite uploadChecklist_outcome by done.
  cbn [o_response].
  destruct (failure_or_not fails (length (rows f))) as [Hok|(j & Hj & Hf)].
  - destruct (onEnd_success_finished fails f Hok) as (H1 & H2 & H3).
    rewrite H3. split; [done|]. split; [|by left].
    split; [done|]. intros (j & Hj & Hf). rewrite Hok in Hf by done. done.
  - destruct (onEnd_failure_unfinished fails f j Hj Hf) as (H1 & H2 & H3).
    rewrite H3. split; [|split; [|by right]].
    + split; [done|]. intros Hok. rewrite Hok in Hf by done. done.
    + split; [|done]. intros _. by exists j.
Qed.

Lemma upload_answers_iff_no_write_fails_witness :
  o_response (uploadChecklist noFailure ∅ (Some "nba") (Some "x") negativeFile)
  = Some (Redirect "/upload-success.html")
  ∧ o_response (uploadChecklist failFirst ∅ (Some "nba") (Some "x")
                                negativeFile) = None.
Proof.
  split.
  - apply (upload_answers_iff_no_write_fails noFailure ∅ (Some "nba") (Some "x")
             negativeFile eq_refl eq_refl).
    intros j _. reflexivity.
  - apply (upload_answers_iff_no_write_fails failFirst ∅ (Some "nba") (Some "x")
             negativeFile eq_refl eq_refl).
    exists 0%nat. split; [cbn; lia|reflexivity].
Defined.

Lemma numberedCards_lookup_id next l k c :
  numberedCards next l !! k = Some c → c_id c = Z.of_nat k + next.
Proof.
  revert next k. induction l as [|r l IH]; intros next k; [done|].
  destruct k as [|k]; cbn.
  - intros [= <-]. cbn. lia.
  - intros Hk. rewrite (IH _ _ Hk). lia.
Qed.

Lemma successfulRows_length fails i l :
  length (successfulRows fails i l) = successes fails i l.
Proof.
  revert i. induction l as [|r l IH]; intros i; [done|].
  cbn [successfulRows successes]. destruct (fails i); cbn [length];
    rewrite IH; lia.
Qed.

(** X2.  The [cards] table an upload leaves holds exactly the rows whose write
    succeeded, in file order, under the identifiers 1, 2, 3, ...; each with
    the five values taken from its own row. *)
Theorem uploaded_cards_are_successful_rows fails f :
  cards (st_store (onEnd fails f))
  = numberedCards 1 (successfulRows fails 0 (rows f))
  ∧ length (cards (st_store (onEnd fails f)))
    = successes fails 0 (rows f)
  ∧ ∀ k c, cards (st_store (onEnd fails f)) !! k = Some c →
           c_id c = Z.of_nat k + 1.
Proof.
  split; [apply onEnd_cards|]. rewrite onEnd_cards. split.
  - by rewrite numberedCards_length, successfulRows_length.
  - intros k c. apply numberedCards_lookup_id.
Qed.

Lemma completions_errors hdrs fails i todo st :
  st_errors (completions hdrs fails i todo st)
  = (st_errors st ++ failedFrom fails i (length todo))%list.
Proof.
  revert i st. induction todo as [|row todo IH]; intros i st.
  - cbn. by rewrite app_nil_r.
  - cbn [completions length failedFrom]. rewrite IH. destruct (fails i).
    + cbn [cardWritten st_errors]. by rewrite <- app_assoc.
    + by rewrite cardWritten_ok_errors.
Qed.

(** X3.  The rows passed to [console.error] are exactly the rows whose card
    write failed, each once, in file order. *)
Theorem logged_rows_are_failed_rows fails f :
  st_errors (onEnd fails f) = failedFrom fails 0 (length (rows f))
  ∧ ∀ j, j ∈ st_errors (onEnd fails f)
         ↔ (j < length (rows f))%nat ∧ fails j = true.
Proof.
  assert (He : st_errors (onEnd fails f) = failedFrom fails 0 (length (rows f))).
  { unfold onEnd, onEndIn. cbn [st_pending]. destruct (decide _) as [Hz|Hz].
    - destruct (rows f); [done|]. cbn in Hz. lia.
    - by rewrite completions_errors. }
  split; [done|]. rewrite He. intros j.
  assert (Hgen : ∀ n i, j ∈ failedFrom fails i n
                        ↔ (i ≤ j < i + n)%nat ∧ fails j = true).
  { induction n as [|n IH]; intros i; cbn [failedFrom].
    - split; [by intros ?%elem_of_nil|lia].
    - destruct (fails i) eqn:E.
      + rewrite elem_of_cons, IH. split.
        * intros [->|[? ?]]; [split; [lia|done]|split; [lia|done]].
        * intros [? ?]. destruct (decide (j = i)); [by left|right].
          split; [lia|done].
      + rewrite IH. split.
        * intros [? ?]. split; [lia|done].
        * intros [? ?]. split; [|done].
          destruct (decide (j = i)) as [->|]; [congruence|lia]. }
  rewrite Hgen. split; intros [? ?]; (split; [lia|done]).
Qed.

End UploadInvariants.

Section UploadedStore.
Import Upload AthleteApi.

Lemma scanHeader_length hdrs row cardId idx header tbl :
  length (scanHeader hdrs row cardId idx header tbl)
  = (length tbl
     + (if isParallelName header && Js.truthy (row !! header) then 1 else 0))%nat.
Proof.
  unfold scanHeader. destruct (isParallelName header); cbn [andb]; [|lia].
  destruct (Js.truthy (row !! header)); [|lia].
  unfold insertParallel. rewrite length_app. cbn. lia.
Qed.

Lemma forEachHeader_length hdrs row cardId idx todo tbl :
  length (forEachHeader hdrs row cardId idx todo tbl)
  = (length tbl + parallelCells todo row)%nat.
Proof.
  revert idx tbl. induction todo as [|h todo IH]; intros idx tbl.
  - cbn. lia.
  - cbn [forEachHeader]. rewrite IH, scanHeader_length.
    unfold parallelCells. cbn [List.filter].
    destruct (isParallelName h && Js.truthy (row !! h)); cbn [length]; lia.
Qed.

Lemma completions_parallels_length hdrs fails i todo st :
  length (parallels (st_store (completions hdrs fails i todo st)))
  = (length (parallels (st_store st))
     + sum_list (map (parallelCells hdrs) (successfulRows fails i todo)))%nat.
Proof.
  revert i st. induction todo as [|row todo IH]; intros i st.
  - cbn. lia.
  - cbn [completions successfulRows]. rewrite IH. destruct (fails i); [done|].
    rewrite cardWritten_ok_store. cbn [parallels map sum_list].
    unfold scanHeaders. rewrite forEachHeader_length. unfold id. lia.
Qed.

(** X4.  The callback of a card write adds to [parallels] one record for each
    header that names a parallel and has a non-empty cell in the row, and
    nothing else; the table an upload leaves has as many records as the
    successfully written rows have such cells. *)
Theorem parallels_count_filled_parallel_cells hdrs fails st i row f :
  length (parallels (st_store (cardWritten hdrs false st i row)))
  = (length (parallels (st_store st)) + parallelCells hdrs row)%nat
  ∧ length (parallels (st_store (onEnd fails f)))
    = sum_list (map (parallelCells (headers f))
                    (successfulRows fails 0 (rows f))).
Proof.
  split.
  - rewrite cardWritten_ok_store. cbn [parallels]. unfold scanHeaders.
    apply forEachHeader_length.
  - unfold onEnd, onEndIn. cbn [st_pending]. destruct (decide _) as [Hz|Hz].
    + destruct (rows f); [done|]. cbn in Hz. lia.
    + by rewrite completions_parallels_length.
Qed.

(** A parallel record that names its card and has a non-empty name. *)
Lemma scanHeader_elem hdrs row cardId idx header tbl p :
  p ∈ scanHeader hdrs row cardId idx header tbl →
  p ∈ tbl ∨ (p_card_id p = Some cardId
             ∧ ∃ v, p_parallel_name p = Some v ∧ v ≠ EmptyString).
Proof.
  unfold scanHeader. destruct (isParallelName header); [|by left].
  destruct (row !! header) as [v|] eqn:E; cbn [Js.truthy]; [|by left].
  destruct (String.eqb v EmptyString) eqn:Ev; cbn [negb]; [by left|].
  apply String.eqb_neq in Ev.
  unfold insertParallel. intros [?|Hp]%elem_of_app; [by left|].
  apply list_elem_of_singleton in Hp as ->. right. cbn. split; [done|].
  by exists v.
Qed.

Lemma forEachHeader_elem hdrs row cardId idx todo tbl p :
  p ∈ forEachHeader hdrs row cardId idx todo tbl →
  p ∈ tbl ∨ (p_card_id p = Some cardId
             ∧ ∃ v, p_parallel_name p = Some v ∧ v ≠ EmptyString).
Proof.
  revert idx tbl. induction todo as [|h todo IH]; intros idx tbl; [by left|].
  cbn [forEachHeader]. intros [Hp|?]%IH; [|by right].
  by apply scanHeader_elem in Hp.
Qed.

Lemma completions_references hdrs fails i todo st :
  (∀ p, p ∈ parallels (st_store st) →
        ∃ c, c ∈ cards (st_store st) ∧ p_card_id p = Some (c_id c)
             ∧ ∃ v, p_parallel_name p = Some v ∧ v ≠ EmptyString) →
  ∀ p, p ∈ parallels (st_store (completions hdrs fails i todo st)) →
       ∃ c, c ∈ cards (st_store (completions hdrs fails i todo st))
            ∧ p_card_id p = Some (c_id c)
            ∧ ∃ v, p_parallel_name p = Some v ∧ v ≠ EmptyString.
Proof.
  revert i st. induction todo as [|row todo IH]; intros i st Hinv; [done|].
  cbn [completions]. apply IH. destruct (fails i); [done|].
  rewrite cardWritten_ok_store. cbn [cards parallels]. intros p Hp.
  unfold scanHeaders in Hp. apply forEachHeader_elem in Hp as [Hp|[Hid Hv]].
  - destruct (Hinv p Hp) as (c & Hc & Hrest). exists c. split; [|done].
    unfold insertCard. apply elem_of_app. by left.
  - eexists. split; [unfold insertCard; apply elem_of_app; right;
                     by apply list_elem_of_singleton|].
    by cbn.
Qed.

(** X5.  Every record of [parallels] an upload leaves refers to exactly one
    stored card and has a non-empty name. *)
Theorem uploaded_parallels_reference_cards fails f p :
  p ∈ parallels (st_store (onEnd fails f)) →
  ∃ c, c ∈ cards (st_store (onEnd fails f))
     ∧ p_card_id p = Some (c_id c)
     ∧ (∀ c', c' ∈ cards (st_store (onEnd fails f)) →
              p_card_id p = Some (c_id c') → c' = c)
     ∧ ∃ v, p_parallel_name p = Some v ∧ v ≠ EmptyString.
Proof.
  intros Hp.
  assert (Href : ∃ c, c ∈ cards (st_store (onEnd fails f))
                      ∧ p_card_id p = Some (c_id c)
                      ∧ ∃ v, p_parallel_name p = Some v ∧ v ≠ EmptyString).
  { revert Hp. unfold onEnd, onEndIn. cbn [st_pending]. destruct (decide _).
    - rewrite finish_store. by intros ?%elem_of_nil.
    - apply completions_references. by intros ? ?%elem_of_nil. }
  destruct Href as (c & Hc & Hid & Hv). exists c.
  split; [done|]. split; [done|]. split; [|done].
  intros c' Hc' Hid'.
  apply list_elem_of_lookup in Hc as [k Hk].
  apply list_elem_of_lookup in Hc' as [k' Hk'].
  assert (Heq : c_id c = c_id c') by congruence.
  pose proof Hk as Hk1. pose proof Hk' as Hk1'.
  rewrite onEnd_cards in Hk1, Hk1'.
  rewrite (numberedCards_lookup_id _ _ _ _ Hk1),
          (numberedCards_lookup_id _ _ _ _ Hk1') in Heq.
  assert (k = k') as -> by lia. congruence.
Qed.

Lemma uploaded_parallels_reference_cards_witness :
  ∃ c, c ∈ cards (st_store (onEnd noFailure negativeFile))
     ∧ Some 2 = Some (c_id c)
     ∧ (∀ c', c' ∈ cards (st_store (onEnd noFailure negativeFile)) →
              Some 2 = Some (c_id c') → c' = c)
     ∧ ∃ v, Some "Adjustment" = Some v ∧ v ≠ EmptyString.
Proof.
  apply (uploaded_parallels_reference_cards noFailure negativeFile
           (mkParallel 2 (Some 2) (Some "Adjustment") [Some "-20"])).
  apply list_elem_of_further, list_elem_of_here.
Defined.

End UploadedStore.

Section UploadThenQuery.
Import Upload AthleteApi.

Lemma completions_cols hdrs fails i todo st :
  cards_extra_cols (st_store (completions hdrs fails i todo st))
    = cards_extra_cols (st_store st)
  ∧ parallels_extra_cols (st_store (completions hdrs fails i todo st))
    = parallels_extra_cols (st_store st).
Proof.
  revert i st. induction todo as [|row todo IH]; intros i st; [done|].
  cbn [completions]. destruct (IH (S i) (cardWritten hdrs (fails i) st i row))
    as [-> ->].
  destruct (fails i); [done|]. by rewrite cardWritten_ok_store.
Qed.

Lemma onEnd_cols fails f :
  cards_extra_cols (st_store (onEnd fails f)) = ["rookie"]
  ∧ parallels_extra_cols (st_store (onEnd fails f)) = ["parallel_numbering"].
Proof.
  unfold onEnd, onEndIn. cbn [st_pending]. destruct (decide _); [done|].
  apply completions_cols.
Qed.

Lemma numberedCards_elem next l c :
  c ∈ numberedCards next l ↔ ∃ k row, l !! k = Some row
                                       ∧ c = cardOf (next + Z.of_nat k) row.
Proof.
  revert next. induction l as [|r l IH]; intros next; cbn [numberedCards].
  - split; [by intros ?%elem_of_nil|by intros (k & row & ? & _)].
  - rewrite elem_of_cons, IH. split.
    + intros [->|(k & row & Hk & ->)].
      * exists 0%nat, r. split; [done|]. f_equal. lia.
      * exists (S k), row. split; [done|]. f_equal. lia.
    + intros ([|k] & row & Hk & ->).
      * left. cbn in Hk. injection Hk as ->. f_equal. lia.
      * right. exists k, row. split; [done|]. f_equal. lia.
Qed.

(** X6.  Whatever the file and whichever writes fail, the store of an upload is
    found again by the summary route under every spelling of the sport and
    set that sanitizes to the same file name; both the rookie and the
    numbering column are detected in it; and the summary's [isRookie] is
    true exactly when some successfully written row of the athlete has,
    under the header [rookie], a cell reading "rookie" once trimmed and
    lowercased. *)
Theorem uploaded_store_answers_summary fails (data : DataDir)
    sport setName f sport' set' (who : string) :
  Js.truthy sport = true → Js.truthy setName = true →
  Js.truthy sport' = true → Js.truthy set' = true →
  Js.truthy (Some who) = true →
  dbNameOf sport' set' = dbNameOf sport setName →
  let out := uploadChecklist fails data sport setName f in
  detectSchema (st_store (onEnd fails f))
    = (Some "rookie", Some "parallel_numbering")
  ∧ ∃ s, athleteSummary (o_data out) sport' set' (Some who) = Json s
       ∧ tryBlock (st_store (onEnd fails f)) who = Some s
       ∧ (isRookie s = true ↔
          ∃ row n v, row ∈ successfulRows fails 0 (rows f)
                     ∧ a_athlete_name (cardArgs row) = Some n
                     ∧ Sql.LOWER n = Sql.LOWER who
                     ∧ row !! "rookie" = Some v
                     ∧ Sql.LOWER (Sql.TRIM v) = "rookie").
Proof.
  intros Hs Ht Hs' Ht' Hw Hname out. subst out.
  destruct (onEnd_cols fails f) as [Hcc Hpc].
  assert (Hdet : detectSchema (st_store (onEnd fails f))
                 = (Some "rookie", Some "parallel_numbering")).
  { unfold detectSchema, table_info_cards, table_info_parallels.
    by rewrite Hcc, Hpc. }
  split; [done|].
  destruct (tryBlock_total (st_store (onEnd fails f)) who) as [s Hsum].
  exists s. split; [|split; [done|]].
  - rewrite (athleteSummary_found _ _ _ _ (st_store (onEnd fails f)));
      [by cbn [Js.orEmpty]; rewrite Hsum|done|done|done|].
    rewrite uploadChecklist_data by done. rewrite Hname.
    apply lookup_insert_eq.
  - destruct (tryBlock_rookie _ _ _ Hsum) as [Hr _].
    assert (Hiff : isRookie s = true ↔
              rookieFlag (st_store (onEnd fails f))
                         (detectSchema (st_store (onEnd fails f))).1 who
              = Some true).
    { rewrite Hr. split; [by intros ->|by intros [= ->]]. }
    rewrite Hiff, rookieFlag_true, Hdet. cbn [fst].
    pose proof (onEnd_cards fails f) as Hcards.
    split.
    + intros (col & c & [= <-] & Hc & (n & Hn & Hlow) & (i & v & Hi & Hv & Hrk)).
      rewrite Hcards in Hc. apply numberedCards_elem in Hc as (k & row & Hk & ->).
      rewrite Hcc in Hi. injection Hi as <-.
      exists row, n, v. split; [by eapply list_elem_of_lookup_2|].
      by repeat split.
    + intros (row & n & v & Hrow & Hn & Hlow & Hv & Hrk).
      apply list_elem_of_lookup in Hrow as [k Hk].
      exists "rookie", (cardOf (1 + Z.of_nat k) row). split; [done|].
      split; [|split].
      * rewrite Hcards. apply numberedCards_elem. by exists k, row.
      * by exists n.
      * exists 0%nat, v. rewrite Hcc. by repeat split.
Qed.

Lemma uploaded_store_answers_summary_witness :
  detectSchema (st_store (onEnd noFailure exampleFile))
    = (Some "rookie", Some "parallel_numbering")
  ∧ ∃ s, athleteSummary
           (o_data (uploadChecklist noFailure ∅ (Some "Football")
                                    (Some "2023 Prizm") exampleFile))
           (Some "FOOTBALL") (Some "2023-prizm") (Some "jane doe") = Json s
       ∧ tryBlock (st_store (onEnd noFailure exampleFile)) "jane doe" = Some s
       ∧ (isRookie s = true ↔
          ∃ row n v, row ∈ successfulRows noFailure 0 (rows exampleFile)
                     ∧ a_athlete_name (cardArgs row) = Some n
                     ∧ Sql.LOWER n = Sql.LOWER "jane doe"
                     ∧ row !! "rookie" = Some v
                     ∧ Sql.LOWER (Sql.TRIM v) = "rookie").
Proof.
  apply (uploaded_store_answers_summary noFailure ∅ (Some "Football")
           (Some "2023 Prizm") exampleFile (Some "FOOTBALL")
           (Some "2023-prizm") "jane doe");
    reflexivity.
Defined.

End UploadThenQuery.

(** * File names and header names *)

Section Names.

Lemma sanitizeChar_lower_safe c :
  isFileNameChar (sanitizeChar (Js.lowerChar c)) = true.
Proof. by destruct c as [[] [] [] [] [] [] [] []]. Qed.

Lemma sanitizeChar_lower_fixed c :
  isFileNameChar c = true → sanitizeChar (Js.lowerChar c) = c.
Proof. by destruct c as [[] [] [] [] [] [] [] []]. Qed.

Lemma sanitize_chars s :
  allChars isFileNameChar (replaceNonAlnum (Js.toLowerCase s)) = true.
Proof.
  induction s as [|c s IH]; [done|].
  cbn [Js.toLowerCase replaceNonAlnum allChars].
  by rewrite sanitizeChar_lower_safe, IH.
Qed.

Lemma sanitize_fixed s :
  allChars isFileNameChar s = true → replaceNonAlnum (Js.toLowerCase s) = s.
Proof.
  induction s as [|c s IH]; [done|]. cbn [allChars].
  intros [Hc Hs]%andb_prop. cbn [Js.toLowerCase replaceNonAlnum].
  by rewrite sanitizeChar_lower_fixed, IH.
Qed.

Lemma sanitize_length s :
  String.length (replaceNonAlnum (Js.toLowerCase s)) = String.length s.
Proof. induction s as [|c s IH]; [done|]. cbn. by rewrite IH. Qed.

Lemma allChars_app P a b :
  allChars P (a +:+ b) = allChars P a && allChars P b.
Proof.
  induction a as [|c a IH]; [done|].
  change (String c a +:+ b) with (String c (a +:+ b)).
  cbn [allChars]. by rewrite IH, andb_assoc.
Qed.

Lemma allChars_impl (P Q : ascii -> bool) s :
  (∀ c, P c = true → Q c = true) →
  allChars P s = true → allChars Q s = true.
Proof.
  intros HPQ. induction s as [|c s IH]; [done|]. cbn [allChars].
  intros [Hc Hs]%andb_prop. by rewrite (HPQ _ Hc), IH.
Qed.

Lemma includes_char_false (x : ascii) s :
  allChars (fun c => negb (bool_decide (c = x))) s = true →
  Js.includes (String x EmptyString) s = false.
Proof.
  induction s as [|c s IH]; [done|]. cbn [allChars].
  intros [Hc Hs]%andb_prop. cbn [Js.includes Js.startsWith].
  apply negb_true_iff, bool_decide_eq_false in Hc.
  rewrite decide_False by congruence. cbn [orb]. by apply IH.
Qed.

(** X7.  [sanitizeFileName] yields only lower-case letters, digits and
    underscores, and leaves such a name as it is; so the file name of a
    store never contains a slash, and its only dot is that of the
    extension.  Of an ASCII name it keeps the length. *)
Theorem sanitizeFileName_is_safe (name sport set : option string) :
  allChars isFileNameChar (sanitizeFileName name) = true
  ∧ (allChars isAsciiChar (Js.orEmpty name) = true →
     String.length (sanitizeFileName name) = String.length (Js.orEmpty name))
  ∧ sanitizeFileName (Some (sanitizeFileName name)) = sanitizeFileName name
  ∧ Js.includes "/" (dbNameOf sport set) = false
  ∧ Js.includes "."
      (sanitizeFileName sport +:+ "_" +:+ sanitizeFileName set) = false.
Proof.
  unfold sanitizeFileName. split; [apply sanitize_chars|].
  split; [intros _; apply sanitize_length|].
  split; [cbn [Js.orEmpty]; apply sanitize_fixed, sanitize_chars|].
  assert (Hstem : allChars isFileNameChar
                    (replaceNonAlnum (Js.toLowerCase (Js.orEmpty sport))
                       +:+ "_"
                       +:+ replaceNonAlnum (Js.toLowerCase (Js.orEmpty set)))
                  = true).
  { by rewrite !allChars_app, !sanitize_chars. }
  assert (Hno : ∀ x, isFileNameChar x = false →
            ∀ c, isFileNameChar c = true → negb (bool_decide (c = x)) = true).
  { intros x Hx c Hc. apply negb_true_iff, bool_decide_eq_false.
    intros ->. congruence. }
  repeat split.
  - apply includes_char_false. unfold dbNameOf, sanitizeFileName.
    rewrite !allChars_app, !(allChars_impl _ _ _ (Hno "/"%char eq_refl)
                               (sanitize_chars _)). done.
  - apply includes_char_false.
    by apply (allChars_impl _ _ _ (Hno "."%char eq_refl)).
Qed.

Lemma sanitizeFileName_is_safe_witness :
  String.length (sanitizeFileName (Some "NBA 2024/25")) = 11%nat.
Proof.
  apply (sanitizeFileName_is_safe (Some "NBA 2024/25") None None).
  reflexivity.
Defined.

Lemma lowerChar_header c :
  Js.isJsSpace c = false → isHeaderChar (Js.lowerChar c) = true.
Proof. by destruct c as [[] [] [] [] [] [] [] []]. Qed.

Lemma lowerChar_space c : Js.isJsSpace (Js.lowerChar c) = Js.isJsSpace c.
Proof. by destruct c as [[] [] [] [] [] [] [] []]. Qed.

Lemma headerChar_fixed c :
  isHeaderChar c = true → Js.lowerChar c = c ∧ Js.isJsSpace c = false.
Proof. by destruct c as [[] [] [] [] [] [] [] []]. Qed.

Lemma collapseSpaces_lower_chars b s :
  allChars isHeaderChar (Upload.collapseSpaces b (Js.toLowerCase s)) = true.
Proof.
  revert b. induction s as [|c s IH]; intros b; [done|].
  cbn [Js.toLowerCase Upload.collapseSpaces]. rewrite lowerChar_space.
  destruct (Js.isJsSpace c) eqn:E.
  - destruct b; [apply IH|]. cbn [allChars]. by rewrite IH.
  - cbn [allChars]. by rewrite lowerChar_header, IH.
Qed.

Lemma trimEndBy_fixed s :
  allChars isHeaderChar s = true → Js.trimEndBy Js.isJsSpace s = s.
Proof.
  induction s as [|c s IH]; [done|]. cbn [allChars].
  intros [Hc Hs]%andb_prop. cbn [Js.trimEndBy]. rewrite IH by done.
  destruct (headerChar_fixed c Hc) as [_ ->]. by destruct s.
Qed.

Lemma header_fixed s :
  allChars isHeaderChar s = true → Upload.mapHeaders s = s.
Proof.
  intros Hs. unfold Upload.mapHeaders, Js.trim, Js.trimBy.
  assert (Hstart : Js.trimStartBy Js.isJsSpace s = s).
  { destruct s as [|c s]; [done|]. cbn [allChars] in Hs.
    apply andb_prop in Hs as [Hc _]. cbn.
    by destruct (headerChar_fixed c Hc) as [_ ->]. }
  rewrite Hstart, trimEndBy_fixed by done.
  induction s as [|c s IH]; [done|]. cbn [allChars] in Hs.
  apply andb_prop in Hs as [Hc Hs].
  destruct (headerChar_fixed c Hc) as [Hl Hsp].
  cbn [Js.toLowerCase Upload.collapseSpaces].
  rewrite Hl, Hsp. f_equal. apply IH; [done|].
  destruct s as [|c' s]; [done|]. cbn [allChars] in Hs.
  apply andb_prop in Hs as [Hc' _]. cbn.
  by destruct (headerChar_fixed c' Hc') as [_ ->].
Qed.

(** X8.  A header normalized by [mapHeaders] contains no white space and no
    upper-case letter, and normalizing it again changes nothing; so the
    lower-casing the scan of the headers repeats is the identity on it. *)
Theorem mapHeaders_normal_form (header : string) :
  allChars isHeaderChar (Upload.mapHeaders header) = true
  ∧ Upload.mapHeaders (Upload.mapHeaders header) = Upload.mapHeaders header
  ∧ Js.toLowerCase (Upload.mapHeaders header) = Upload.mapHeaders header.
Proof.
  assert (H : allChars isHeaderChar (Upload.mapHeaders header) = true)
    by apply collapseSpaces_lower_chars.
  split; [done|]. split; [by apply header_fixed|].
  revert H. generalize (Upload.mapHeaders header). intros s.
  induction s as [|c s IH]; [done|]. cbn [allChars].
  intros [Hc Hs]%andb_prop. cbn [Js.toLowerCase].
  destruct (headerChar_fixed c Hc) as [-> _]. by rewrite IH.
Qed.

End Names.

(** * Further properties of the athlete summary *)

Section Grouping.
Import AthleteApi.

Lemma splitBars_barfree cur c :
  Js.includes "|" c = false →
  Js.splitBars cur c = [String.string_of_list_ascii (rev cur) +:+ c].
Proof.
  revert cur. induction c as [|a c IH]; intros cur Hc.
  - by rewrite append_empty_r.
  - apply includes_bar_cons in Hc as [Ha Hc].
    rewrite splitBars_other, IH by done. f_equal. cbn [rev].
    rewrite string_of_list_ascii_app. cbn [String.string_of_list_ascii].
    apply append_snoc.
Qed.

Lemma splitBars_key_full cur s c :
  Js.includes "|" s = false → Js.includes "|" c = false →
  Js.splitBars cur (keyOf s c)
  = [String.string_of_list_ascii (rev cur) +:+ s; c].
Proof.
  revert cur. induction s as [|a s IH]; intros cur Hs Hc.
  - rewrite append_empty_r. change (keyOf EmptyString c) with ("||" +:+ c).
    change (Js.splitBars cur ("||" +:+ c))
      with (String.string_of_list_ascii (rev cur) :: Js.splitBars [] c).
    by rewrite splitBars_barfree.
  - apply includes_bar_cons in Hs as [Ha Hs].
    change (keyOf (String a s) c) with (String a (keyOf s c)).
    rewrite splitBars_other, IH by done. f_equal. cbn [rev].
    rewrite string_of_list_ascii_app. cbn [String.string_of_list_ascii].
    apply append_snoc.
Qed.

(** X9.  A group whose subset and card type contain no bar is reported in the
    breakdown under exactly that subset and card type. *)
Theorem group_key_round_trip (subset cardType : string) (total : Z) :
  Js.includes "|" subset = false → Js.includes "|" cardType = false →
  Js.split2 (keyOf subset cardType) = [subset; cardType]
  ∧ entryOf (keyOf subset cardType, total)
    = mkEntry (Some subset) (Some cardType) total.
Proof.
  intros Hs Hc.
  assert (H : Js.split2 (keyOf subset cardType) = [subset; cardType])
    by (unfold Js.split2; by rewrite splitBars_key_full).
  split; [done|]. unfold entryOf. cbn [fst snd]. by rewrite H.
Qed.

Lemma group_key_round_trip_witness :
  Js.split2 (keyOf "Autograph Relic" "Base") = ["Autograph Relic"; "Base"]
  ∧ entryOf (keyOf "Autograph Relic" "Base", 25)
    = mkEntry (Some "Autograph Relic") (Some "Base") 25.
Proof.
  apply (group_key_round_trip "Autograph Relic" "Base" 25); reflexivity.
Defined.

Lemma mapGet_mapSet k v m k' :
  mapGet k' (mapSet k v m) = if decide (k = k') then Some v else mapGet k' m.
Proof.
  induction m as [|e m IH]; cbn [mapSet mapGet fst snd].
  - repeat case_decide; congruence.
  - destruct (decide (e.1 = k)) as [He|He]; cbn [mapGet fst snd];
      [|rewrite IH]; repeat case_decide; congruence.
Qed.

Lemma mapSet_keys k v m :
  (mapSet k v m).*1 = if decide (k ∈ m.*1) then m.*1 else (m.*1 ++ [k])%list.
Proof.
  induction m as [|e m IH]; [done|]. cbn [mapSet].
  destruct (decide (e.1 = k)) as [He|He].
  - cbn [fmap list_fmap fst]. rewrite decide_True by (rewrite He; left).
    by rewrite He.
  - cbn [fmap list_fmap] in *. rewrite IH.
    destruct (decide (k ∈ m.*1)) as [Hin|Hin].
    + by rewrite decide_True by by right.
    + rewrite decide_False; [done|].
      intros [?|?]%elem_of_cons; [congruence|done].
Qed.

Lemma mapGet_None k (m : list (string * Z)) : mapGet k m = None ↔ k ∉ m.*1.
Proof.
  induction m as [|e m IH]; cbn [mapGet].
  - split; [intros _ ?%elem_of_nil; done|done].
  - cbn [fmap list_fmap]. rewrite not_elem_of_cons.
    destruct (decide (e.1 = k)) as [He|He].
    + split; [done|]. intros [? _]. congruence.
    + rewrite IH. split; [intros ?; split; [congruence|done]|by intros [_ ?]].
Qed.

Lemma loop_group_keys rows a :
  NoDup (group a).*1 → NoDup (group (foldl loopBody a rows)).*1.
Proof.
  revert a. induction rows as [|r rows IH]; intros a Ha; [done|].
  cbn [foldl]. apply IH. cbn [loopBody group]. rewrite mapSet_keys.
  destruct (decide _) as [Hin|Hin]; [done|].
  apply NoDup_app. split; [done|]. split; [|apply NoDup_singleton].
  intros x Hx ->%list_elem_of_singleton. done.
Qed.

Lemma loop_group_get rows a k :
  mapGet k (group (foldl loopBody a rows))
  = if decide (k ∈ map rowKey rows)
    then Some (default 0 (mapGet k (group a)) + groupSum k rows)
    else mapGet k (group a).
Proof.
  revert a. induction rows as [|r rows IH]; intros a.
  - cbn. rewrite decide_False; [done|]. by intros ?%elem_of_nil.
  - cbn [foldl map groupSum foldr]. rewrite IH.
    cbn [loopBody group]. rewrite mapGet_mapSet.
    fold (rowKey r). fold (groupSum k rows).
    destruct (decide (rowKey r = k)) as [Hk|Hk].
    + rewrite (decide_True (P := k ∈ rowKey r :: map rowKey rows))
        by (rewrite Hk; left).
      rewrite Hk. cbn [default].
      destruct (decide (k ∈ map rowKey rows)); f_equal; unfold id; [lia|].
      assert (groupSum k rows = 0) as ->; [|lia].
      clear -n. induction rows as [|r' rows IHr]; [done|].
      cbn [groupSum foldr]. fold (groupSum k rows).
      rewrite decide_False, IHr; [done| |].
      * intros Hin. apply n. by right.
      * intros Heq. apply n. rewrite <- Heq. left.
    + destruct (decide (k ∈ map rowKey rows)) as [Hin|Hin].
      * rewrite decide_True by by right. done.
      * rewrite decide_False; [done|].
        intros [?|?]%elem_of_cons; [congruence|done].
Qed.

(** X10.  The loop groups the rows of the join by their key: the map has one
    entry for each key that occurs and none for any other; and on an exact
    run (every numbering [NULL], blank, an optionally signed run of digits
    or surely not a number, the magnitudes summing to at most 2^53) the
    entry of a key is the sum of the numberings of the rows with that key,
    the running total is the sum over all rows, and after any number of
    turns every number the loop holds is within 2^53. *)
Theorem loop_groups_by_key (rows : list JoinRow) :
  NoDup (group (loop rows)).*1
  ∧ (∀ k, k ∈ (group (loop rows)).*1 ↔ k ∈ map rowKey rows)
  ∧ (exactRun (map r_numbering rows) = true →
     (∀ k, mapGet k (group (loop rows))
           = if decide (k ∈ map rowKey rows) then Some (groupSum k rows)
             else None)
     ∧ totalNumbered (loop rows)
       = foldr (fun r acc => Js.NumberOrZero (r_numbering r) + acc) 0 rows
     ∧ ∀ seen rest, rows = (seen ++ rest)%list →
                    within exactLimit (loop seen)).
Proof.
  assert (Hget : ∀ k, mapGet k (group (loop rows))
                      = if decide (k ∈ map rowKey rows)
                        then Some (groupSum k rows) else None).
  { intros k. unfold loop. rewrite loop_group_get. cbn [group mapGet default].
    destruct (decide _); [f_equal; lia|done]. }
  split; [apply loop_group_keys; constructor|]. split.
  - intros k. specialize (Hget k). destruct (decide (k ∈ map rowKey rows)).
    + split; [done|]. intros _.
      destruct (decide (k ∈ (group (loop rows)).*1)) as [|Hn]; [done|].
      apply mapGet_None in Hn. congruence.
    + apply mapGet_None in Hget. tauto.
  - intros Hexact. split; [done|]. split.
    + unfold loop.
      assert (Hgen : ∀ a, totalNumbered (foldl loopBody a rows)
                = totalNumbered a
                  + foldr (fun r acc => Js.NumberOrZero (r_numbering r) + acc)
                          0 rows).
      { clear. induction rows as [|r rows IH]; intros a; [cbn; lia|].
        cbn [foldl foldr]. rewrite IH. cbn [loopBody totalNumbered]. lia. }
      rewrite Hgen. cbn. lia.
    + intros rows1 rows2 ->. apply exactRun_limit in Hexact.
      rewrite map_app, absSum_app in Hexact.
      pose proof (absSum_nonneg (map r_numbering rows2)).
      unfold loop. eapply within_mono; [|apply (loop_within 0)].
      * lia.
      * unfold within. cbn. repeat split; try lia. constructor.
Qed.

Lemma loop_groups_by_key_witness :
  let rows := [mkJoin (Some "Base") None (Some "10");
               mkJoin (Some "Autograph") (Some "Auto") (Some " 5 ");
               mkJoin (Some "Base") None (Some "/99");
               mkJoin (Some "Base") None (Some "25")] in
  mapGet "Base||" (group (loop rows)) = Some 35
  ∧ totalNumbered (loop rows) = 40.
Proof.
  intros rows. destruct (loop_groups_by_key rows) as (_ & _ & H).
  destruct (H eq_refl) as (Hk & Ht & _). split.
  - rewrite Hk. reflexivity.
  - rewrite Ht. reflexivity.
Defined.

End Grouping.

Section SummaryShape.
Import AthleteApi.

Lemma athleteMatches_lower who who' c :
  Js.toLowerCase who = Js.toLowerCase who' →
  athleteMatches who c = athleteMatches who' c.
Proof. intros H. unfold athleteMatches, Sql.LOWER. by rewrite H. Qed.

Lemma filter_matches_lower who who' (l : list CardRow) :
  Js.toLowerCase who = Js.toLowerCase who' →
  filter (fun c => athleteMatches who c = true) l
  = filter (fun c => athleteMatches who' c = true) l.
Proof.
  intros H. apply list_filter_iff. intros c.
  by rewrite (athleteMatches_lower who who' c H).
Qed.

(** X11.  The athlete is looked up without regard to ASCII case: two spellings
    with the same lower-case form get the same summary, up to the name
    echoed back. *)
Theorem summary_ignores_case_of_athlete (db : Store) (who who' : string) :
  Js.toLowerCase who = Js.toLowerCase who' →
  tryBlock db who' = withAthlete who' <$> tryBlock db who.
Proof.
  intros H. rewrite !tryBlock_unfold.
  assert (Hr : rookieFlag db (detectSchema db).1 who'
               = rookieFlag db (detectSchema db).1 who).
  { unfold rookieFlag, rookieQuery. destruct (detectSchema db).1; [|done].
    by rewrite (filter_matches_lower who who'). }
  rewrite Hr. destruct (rookieFlag db _ who) as [rk|]; [|done].
  cbn [mbind option_bind].
  destruct (detectSchema db).2 as [ncol|]; [|done].
  assert (Hj : joinQuery db ncol who' = joinQuery db ncol who).
  { unfold joinQuery. by rewrite (filter_matches_lower who who'). }
  rewrite Hj. destruct (joinQuery db ncol who) as [[|r rows]|]; done.
Qed.

Lemma summary_ignores_case_of_athlete_witness :
  tryBlock autographStore "JANE DOE"
  = withAthlete "JANE DOE" <$> tryBlock autographStore "jane doe".
Proof.
  apply (summary_ignores_case_of_athlete autographStore "jane doe" "JANE DOE").
  reflexivity.
Defined.

Lemma mapSet_nonempty k v m : mapSet k v m ≠ [].
Proof. destruct m as [|e m]; [done|]. cbn. by destruct (decide _). Qed.

Lemma loop_group_nonempty rows a :
  group a ≠ [] → group (foldl loopBody a rows) ≠ [].
Proof.
  revert a. induction rows as [|r rows IH]; intros a Ha; [done|].
  cbn [foldl]. apply IH. cbn [loopBody group]. apply mapSet_nonempty.
Qed.

Lemma countCardTypes_zero bd : countCardTypes bd = 0%nat ↔ bd = [].
Proof.
  unfold countCardTypes. split; [|by intros ->].
  destruct bd as [|b bd]; [done|]. intros Hlen.
  apply length_zero_iff_nil in Hlen.
  assert (Hin : Js.trim (Js.orEmpty (b_cardType b))
                ∈ remove_dups (map (fun b => Js.trim (Js.orEmpty (b_cardType b)))
                                   (b :: bd)))
    by (apply elem_of_remove_dups; left).
  rewrite Hlen in Hin. by apply elem_of_nil in Hin.
Qed.

Lemma countCardTypes_le bd : (countCardTypes bd ≤ length bd)%nat.
Proof.
  unfold countCardTypes.
  rewrite <- (length_map (fun b => Js.trim (Js.orEmpty (b_cardType b))) bd).
  generalize (map (fun b => Js.trim (Js.orEmpty (b_cardType b))) bd).
  intros l. induction l as [|x l IH]; [done|]. cbn [remove_dups].
  destruct (decide_rel _ x l); cbn [length]; lia.
Qed.

Lemma tryBlock_breakdown_nil db who s :
  tryBlock db who = Some s →
  (breakdown s = []
   ↔ (detectSchema db).2 = None
     ∨ filter (fun c => athleteMatches who c = true) (cards db) = [])
  ∧ cardTypeCount s = countCardTypes (breakdown s).
Proof.
  intros Hs. rewrite tryBlock_unfold in Hs.
  destruct (rookieFlag db _ who) as [rk|]; [|done].
  cbn [mbind option_bind] in Hs.
  destruct (detectSchema db).2 as [ncol|] eqn:Hn.
  2:{ injection Hs as <-. cbn. split; [|done]. split; [by left|done]. }
  destruct (joinQuery db ncol who) as [rows|] eqn:Hj; [|done].
  cbn [mbind option_bind] in Hs.
  pose proof (joinQuery_nil _ _ _ _ Hj) as Hnil.
  destruct rows as [|r rows]; injection Hs as <-.
  - cbn. split; [|done]. split; [|done]. intros _. right. by apply Hnil.
  - unfold aggregate. cbn [breakdown cardTypeCount]. split; [|done].
    assert (Hne : map entryOf (group (loop (r :: rows))) ≠ []).
    { intros Hm. apply fmap_nil_inv in Hm. revert Hm. unfold loop.
      cbn [foldl]. apply loop_group_nonempty. cbn [loopBody group].
      apply mapSet_nonempty. }
    split; [done|]. intros [?|Hcards]; [done|].
    apply Hnil in Hcards. done.
Qed.

(** X12.  The summary is the zero-filled one only when it has to be: its
    breakdown is empty exactly when no numbering column is detected or no
    card of the store matches the athlete; otherwise there is at least one
    group and [cardTypeCount] is at least 1 and at most the number of
    groups. *)
Theorem breakdown_empty_iff (db : Store) (who : string) :
  ∃ s, tryBlock db who = Some s
     ∧ (breakdown s = []
        ↔ (detectSchema db).2 = None
          ∨ filter (fun c => athleteMatches who c = true) (cards db) = [])
     ∧ (cardTypeCount s = 0%nat ↔ breakdown s = [])
     ∧ (cardTypeCount s ≤ length (breakdown s))%nat.
Proof.
  destruct (tryBlock_total db who) as [s Hs]. exists s. split; [done|].
  destruct (tryBlock_breakdown_nil _ _ _ Hs) as [Hnil ->].
  split; [done|]. split; [apply countCardTypes_zero|apply countCardTypes_le].
Qed.

End SummaryShape.

(** * The list of athletes *)

Section Athletes.
Import AthleteApi AthletesRoute.

Lemma lowerLe_total : Total lowerLe.
Proof. intros a b. unfold lowerLe. apply String.leb_total. Qed.

Lemma athleteNames_elem db n :
  n ∈ athleteNames db
  ↔ ∃ c, c ∈ cards db ∧ c_athlete_name c = Some n
         ∧ Sql.TRIM n ≠ EmptyString.
Proof.
  unfold athleteNames. rewrite merge_sort_Permutation, elem_of_remove_dups.
  rewrite list_elem_of_omap. unfold selectedName. split.
  - intros (c & Hc & Hsel). exists c. split; [done|].
    destruct (c_athlete_name c) as [m|]; [|done].
    destruct (String.eqb _ _) eqn:E; [done|]. injection Hsel as ->.
    split; [done|]. by apply String.eqb_neq.
  - intros (c & Hc & Hn & Ht). exists c. split; [done|]. rewrite Hn.
    apply String.eqb_neq in Ht. by rewrite Ht.
Qed.

(** X13.  With both parameters given and the store present, the route answers
    with the athlete names of the store's cards that are not [NULL] and
    not blank: each exactly once, in ascending order of their lower-case
    forms, [count] being their number. *)
Theorem athletes_lists_each_name_once (data : DataDir) sport set db :
  Js.truthy sport = true → Js.truthy set = true →
  data !! dbNameOf sport set = Some db →
  ∃ names, athletes data sport set
           = Ok (Js.orEmpty sport) (Js.orEmpty set) (length names) names
     ∧ NoDup names
     ∧ Sorted lowerLe names
     ∧ ∀ n, n ∈ names
            ↔ ∃ c, c ∈ cards db ∧ c_athlete_name c = Some n
                   ∧ Sql.TRIM n ≠ EmptyString.
Proof.
  intros Hs Ht Hdb. exists (athleteNames db).
  split; [|split; [|split]].
  - unfold athletes, openDbForChecklist. by rewrite Hs, Ht, Hdb.
  - unfold athleteNames. rewrite merge_sort_Permutation.
    apply NoDup_remove_dups.
  - apply (Sorted_merge_sort lowerLe (Total0 := lowerLe_total)).
  - apply athleteNames_elem.
Qed.

Lemma athletes_lists_each_name_once_witness :
  ∃ names, athletes {[ "nba_x.db" := autographStore ]} (Some "NBA") (Some "x")
           = Ok "NBA" "x" (length names) names
     ∧ NoDup names
     ∧ Sorted lowerLe names
     ∧ ∀ n, n ∈ names
            ↔ ∃ c, c ∈ cards autographStore ∧ c_athlete_name c = Some n
                   ∧ Sql.TRIM n ≠ EmptyString.
Proof.
  apply (athletes_lists_each_name_once {[ "nba_x.db" := autographStore ]}
           (Some "NBA") (Some "x") autographStore); reflexivity.
Defined.

(** X14.  A name offered by the list of athletes always selects at least one
    card in the summary route; against a store with a numbering column its
    summary therefore has at least one group. *)
Theorem listed_athlete_has_summary (db : Store) (n : string) :
  n ∈ athleteNames db →
  filter (fun c => athleteMatches n c = true) (cards db) ≠ []
  ∧ ∃ s, AthleteApi.tryBlock db n = Some s
       ∧ ((detectSchema db).2 ≠ None → breakdown s ≠ []).
Proof.
  intros (c & Hc & Hn & _)%athleteNames_elem.
  assert (Hne : filter (fun c => athleteMatches n c = true) (cards db) ≠ []).
  { intros Hnil.
    assert (Hin : c ∈ filter (fun c => athleteMatches n c = true) (cards db)).
    { apply list_elem_of_filter. split; [|done].
      apply athleteMatches_true. by exists n. }
    rewrite Hnil in Hin. by apply elem_of_nil in Hin. }
  split; [done|].
  destruct (tryBlock_total db n) as [s Hs]. exists s. split; [done|].
  intros Hcol Hbd.
  apply (tryBlock_breakdown_nil _ _ _ Hs) in Hbd as [?|?]; done.
Qed.

Lemma listed_athlete_has_summary_witness :
  filter (fun c => athleteMatches "Jane Doe" c = true) (cards autographStore)
    ≠ []
  ∧ ∃ s, AthleteApi.tryBlock autographStore "Jane Doe" = Some s
       ∧ ((detectSchema autographStore).2 ≠ None → breakdown s ≠ []).
Proof.
  apply (listed_athlete_has_summary autographStore "Jane Doe").
  apply list_elem_of_here.
Defined.

End Athletes.

(** * The checklist route *)

Section Checklist.
Import AthleteApi ChecklistRoute.

Lemma existsb_eqb_map (x : string) (f : string -> string) l :
  existsb (String.eqb x) (map f l)
  = existsb (fun c => String.eqb (f c) x) l.
Proof.
  induction l as [|c l IH]; [done|]. cbn [map existsb].
  by rewrite IH, String.eqb_sym.
Qed.

Lemma numberingColOf_detect db : numberingColOf db = (detectSchema db).2.
Proof.
  unfold numberingColOf, detectSchema, has. cbn [snd].
  by rewrite !existsb_eqb_map.
Qed.

Lemma nullsFirstLeb_total a b :
  nullsFirstLeb a b = true ∨ nullsFirstLeb b a = true.
Proof.
  destruct a as [x|], b as [y|]; cbn; auto. apply String.leb_total.
Qed.

Lemma orderLe_total : Total orderLe.
Proof.
  intros r1 r2. unfold orderLe.
  destruct (decide (Sql.LOWER <$> k_subset r1 = Sql.LOWER <$> k_subset r2))
    as [He|Hne].
  - rewrite (decide_True (P := _ = Sql.LOWER <$> k_subset r1)) by done.
    apply nullsFirstLeb_total.
  - rewrite (decide_False (P := _ = Sql.LOWER <$> k_subset r1)) by done.
    apply nullsFirstLeb_total.
Qed.

Lemma tryBlock_cases db :
  ((detectSchema db).2 = None ∧ ChecklistRoute.tryBlock db = Some (cardRows db))
  ∨ ∃ col i, (detectSchema db).2 = Some col
             ∧ Sql.columnIndex (parallels_extra_cols db) col = Some i
             ∧ ChecklistRoute.tryBlock db
               = Some (merge_sort orderLe
                         (cards db ≫= ChecklistRoute.joinCard db i)).
Proof.
  unfold ChecklistRoute.tryBlock, parTable.
  cbn [length bool_decide decide_rel]. rewrite numberingColOf_detect.
  destruct (detectSchema db).2 as [col|] eqn:Hcol.
  - right. destruct (numberingCol_index db col Hcol) as [i Hi].
    exists col, i. split; [done|]. split; [done|].
    change (bool_decide (0 < 1)%nat) with true. cbv iota.
    unfold joinedRows. by rewrite Hi.
  - left. split; [done|]. by change (bool_decide (0 < 1)%nat) with true.
Qed.

Lemma joinCard_card db i c r :
  r ∈ ChecklistRoute.joinCard db i c →
  k_subset r = c_subset c ∧ k_athlete_name r = c_athlete_name c
  ∧ k_card_type r = c_card_type c.
Proof.
  unfold ChecklistRoute.joinCard. destruct (filter _ _) as [|p ps].
  - by intros ->%list_elem_of_singleton.
  - by intros (p' & -> & _)%list_elem_of_fmap.
Qed.

Lemma joinCard_length db i c :
  length (ChecklistRoute.joinCard db i c)
  = (1 `max` length (filter (fun p => p_card_id p = Some (c_id c))
                            (parallels db)))%nat.
Proof.
  unfold ChecklistRoute.joinCard. destruct (filter _ _) as [|p ps]; [done|].
  rewrite length_map. cbn [length]. lia.
Qed.

Lemma bind_length {A B} (g : A → list B) (l : list A) :
  length (l ≫= g) = sum_list (map (fun x => length (g x)) l).
Proof.
  induction l as [|x l IH]; [done|].
  rewrite bind_cons, length_app, IH. done.
Qed.

(** X15.  The checklist route detects the numbering column exactly as the
    summary route does and none of its queries is rejected.  Its rows are
    in ascending order of lower-cased subset, then lower-cased athlete
    name, [NULL] first; every card of the store is on at least one row;
    with a numbering column a card has one row for each of its parallels
    (one row when it has none), without one it has exactly one row, whose
    parallel fields are [NULL]. *)
Theorem checklist_rows_cover_cards (db : Store) :
  numberingColOf db = (detectSchema db).2
  ∧ ∃ rows, ChecklistRoute.tryBlock db = Some rows
      ∧ Sorted orderLe rows
      ∧ (∀ c, c ∈ cards db →
              ∃ r, r ∈ rows ∧ k_subset r = c_subset c
                   ∧ k_athlete_name r = c_athlete_name c
                   ∧ k_card_type r = c_card_type c)
      ∧ match (detectSchema db).2 with
        | Some _ =>
            length rows
            = sum_list
                (map (fun c =>
                        (1 `max` length
                                  (filter (fun p => p_card_id p = Some (c_id c))
                                          (parallels db)))%nat)
                     (cards db))
        | None =>
            length rows = length (cards db)
            ∧ ∀ r, r ∈ rows → k_parallel_name r = None
                              ∧ k_parallel_numbering r = None
        end.
Proof.
  split; [apply numberingColOf_detect|].
  destruct (tryBlock_cases db) as [[Hn Ht]|(col & i & Hn & Hi & Ht)];
    rewrite Ht, Hn; eexists; (split; [done|]).
  - split; [apply (Sorted_merge_sort orderLe (Total0 := orderLe_total))|].
    unfold cardRows. split; [|split].
    + intros c Hc.
      exists (mkRow (c_subset c) (c_athlete_name c) (c_card_type c) None None).
      split; [|done].
      rewrite merge_sort_Permutation. apply list_elem_of_fmap. by exists c.
    + by rewrite merge_sort_Permutation, length_map.
    + intros r. rewrite merge_sort_Permutation.
      by intros (c & -> & _)%list_elem_of_fmap.
  - split; [apply (Sorted_merge_sort orderLe (Total0 := orderLe_total))|].
    split.
    + intros c Hc.
      assert (Hne : ChecklistRoute.joinCard db i c ≠ []).
      { unfold ChecklistRoute.joinCard. by destruct (filter _ _). }
      destruct (ChecklistRoute.joinCard db i c) as [|r l] eqn:Hj; [done|].
      exists r. split.
      * rewrite merge_sort_Permutation. apply list_elem_of_bind.
        exists c. split; [rewrite Hj; left|done].
      * apply (joinCard_card db i c). rewrite Hj. left.
    + rewrite merge_sort_Permutation, bind_length. f_equal.
      apply map_ext. intros c. apply joinCard_length.
Qed.



End Checklist.

(** * The list of sets *)

Section CardSets.
Import CardSetsRoute.

Lemma append_assoc a b c : (a +:+ b) +:+ c = a +:+ (b +:+ c).
Proof.
  induction a as [|x a IH]; [done|].
  change (String x ((a +:+ b) +:+ c) = String x (a +:+ (b +:+ c))).
  by rewrite IH.
Qed.

Lemma length_append a b :
  String.length (a +:+ b) = (String.length a + String.length b)%nat.
Proof.
  induction a as [|x a IH]; [done|].
  change (S (String.length (a +:+ b))
          = S (String.length a + String.length b)). by rewrite IH.
Qed.

Lemma startsWith_append p s : Js.startsWith p (p +:+ s) = true.
Proof.
  induction p as [|x p IH]; [done|].
  change (Js.startsWith (String x p) (String x (p +:+ s)) = true).
  cbn [Js.startsWith]. by rewrite decide_True.
Qed.

Lemma dropChars_append a b : dropChars (String.length a) (a +:+ b) = b.
Proof. induction a as [|x a IH]; [by destruct b|]. exact IH. Qed.

Lemma takeChars_append a b : takeChars (String.length a) (a +:+ b) = a.
Proof.
  induction a as [|x a IH]; [by destruct b|].
  change (String x (takeChars (String.length a) (a +:+ b)) = String x a).
  by rewrite IH.
Qed.

Lemma toLowerCase_append a b :
  Js.toLowerCase (a +:+ b) = Js.toLowerCase a +:+ Js.toLowerCase b.
Proof.
  induction a as [|x a IH]; [done|].
  change (String (Js.lowerChar x) (Js.toLowerCase (a +:+ b))
          = String (Js.lowerChar x) (Js.toLowerCase a +:+ Js.toLowerCase b)).
  by rewrite IH.
Qed.

Lemma fileNameChar_lower c : isFileNameChar c = true → Js.lowerChar c = c.
Proof. by destruct c as [[] [] [] [] [] [] [] []]. Qed.

Lemma fileName_lower s :
  allChars isFileNameChar s = true → Js.toLowerCase s = s.
Proof.
  induction s as [|c s IH]; [done|]. cbn [allChars].
  intros [Hc Hs]%andb_prop. cbn [Js.toLowerCase].
  by rewrite fileNameChar_lower, IH.
Qed.

Lemma respaced_char c :
  isFileNameChar c = true →
  sanitizeChar (Js.lowerChar (if decide (c = "_"%char) then " "%char else c))
  = c.
Proof. by destruct c as [[] [] [] [] [] [] [] []]. Qed.

Lemma sanitize_respaced s :
  allChars isFileNameChar s = true →
  sanitizeFileName (Some (underscoresToSpaces s)) = s.
Proof.
  unfold sanitizeFileName. cbn [Js.orEmpty].
  induction s as [|c s IH]; [done|]. cbn [allChars].
  intros [Hc Hs]%andb_prop.
  cbn [underscoresToSpaces Js.toLowerCase replaceNonAlnum].
  by rewrite respaced_char, IH.
Qed.

Lemma readdirSync_elem (data : DataDir) f :
  f ∈ readdirSync data ↔ is_Some (data !! f).
Proof.
  unfold readdirSync. rewrite list_elem_of_fmap. split.
  - intros ([f' db] & -> & Hin). apply elem_of_map_to_list in Hin.
    by exists db.
  - intros [db Hdb]. exists (f, db). split; [done|].
    by apply elem_of_map_to_list.
Qed.

(** X17.  Whatever the order in which the host sorts, every store that exists
    for a sport and a set is offered in the list of sets of that sport,
    under the sanitized set name with its underscores turned into spaces;
    and the name offered, given back as the set, leads to the same store
    file. *)
Theorem listed_set_reopens_store (localeSort : list string → list string)
    (data : DataDir) (sport setName : option string) :
  (∀ l, localeSort l ≡ₚ l) →
  Js.truthy sport = true →
  is_Some (data !! dbNameOf sport setName) →
  ∃ files, cardSets localeSort data sport = Ok files
         ∧ underscoresToSpaces (sanitizeFileName setName) ∈ files
         ∧ dbNameOf sport
                    (Some (underscoresToSpaces (sanitizeFileName setName)))
           = dbNameOf sport setName.
Proof.
  intros Hperm Hs Hdb. unfold cardSets. rewrite Hs. cbn [negb].
  eexists. split; [done|]. split.
  - rewrite Hperm. apply list_elem_of_fmap.
    exists (dbNameOf sport setName).
    assert (Hname : dbNameOf sport setName
                    = (sanitizeFileName sport +:+ "_")
                        +:+ (sanitizeFileName setName +:+ ".db")).
    { unfold dbNameOf. by rewrite append_assoc. }
    split.
    + rewrite Hname. unfold sliceButLast3.
      rewrite dropChars_append, !length_append.
      replace (String.length (sanitizeFileName sport) + String.length "_"
               + (String.length (sanitizeFileName setName)
                  + String.length ".db") - 3
               - (String.length (sanitizeFileName sport)
                  + String.length "_"))%nat
        with (String.length (sanitizeFileName setName)) by (cbn; lia).
      by rewrite takeChars_append.
    + apply list_elem_of_filter. split; [|by apply readdirSync_elem].
      apply andb_true_intro. split.
      * rewrite Hname, toLowerCase_append.
        rewrite (fileName_lower (sanitizeFileName sport +:+ "_")).
        { apply startsWith_append. }
        rewrite allChars_app. unfold sanitizeFileName.
        by rewrite sanitize_chars.
      * unfold endsWith.
        assert (Hname' : dbNameOf sport setName
                         = (sanitizeFileName sport +:+ "_"
                              +:+ sanitizeFileName setName) +:+ ".db").
        { unfold dbNameOf. by rewrite !append_assoc. }
        rewrite Hname', length_append.
        replace (String.length (sanitizeFileName sport +:+ "_"
                                  +:+ sanitizeFileName setName)
                 + String.length ".db" - String.length ".db")%nat
          with (String.length (sanitizeFileName sport +:+ "_"
                                 +:+ sanitizeFileName setName)) by lia.
        rewrite dropChars_append. apply String.eqb_refl.
  - unfold dbNameOf. do 2 f_equal. f_equal. apply sanitize_respaced.
    unfold sanitizeFileName. apply sanitize_chars.
Qed.

Lemma listed_set_reopens_store_witness :
  ∃ files, cardSets (merge_sort AthletesRoute.lowerLe)
                    {[ "football_2023_prizm.db" := untypedStore ]}
                    (Some "Football") = Ok files
         ∧ "2023 prizm" ∈ files
         ∧ dbNameOf (Some "Football") (Some "2023 prizm")
           = "football_2023_prizm.db".
Proof.
  apply (listed_set_reopens_store
           (merge_sort AthletesRoute.lowerLe)
           {[ "football_2023_prizm.db" := untypedStore ]}
           (Some "Football") (Some "2023-Prizm")).
  - intros l. apply merge_sort_Permutation.
  - reflexivity.
  - by eexists.
Defined.

End CardSets.

(** * The paged viewer *)

Section Paging.
Import LegacyChecklist.

Lemma idLe_total : Total idLe.
Proof. intros a b. unfold idLe. lia. Qed.

Lemma concat_pages {A} (l : list A) (k : nat) :
  (length l ≤ 50 * k)%nat →
  concat (map (fun i => take 50 (drop (50 * i) l)) (seq 0 k)) = l.
Proof.
  revert l. induction k as [|k IH]; intros l Hl.
  - destruct l; [done|]. cbn in Hl. lia.
  - cbn [seq map concat]. rewrite <- fmap_S_seq.
    change (map ?f (S <$> ?l)) with (map f (map S l)). rewrite map_map.
    rewrite Nat.mul_0_r, drop_0.
    transitivity (take 50 l ++ drop 50 l)%list; [|apply take_drop].
    f_equal.
    etrans; [|apply (IH (drop 50 l)); rewrite length_drop; lia].
    f_equal. apply map_ext. intros i. rewrite drop_drop. do 2 f_equal. lia.
Qed.

Lemma ceilDiv_bounds n :
  0 ≤ n → 50 * (ceilDiv n 50 - 1) < n ≤ 50 * ceilDiv n 50.
Proof.
  intros Hn. unfold ceilDiv.
  pose proof (Z_div_mod_eq_full (- n) 50).
  pose proof (Z.mod_pos_bound (- n) 50). lia.
Qed.

(** X18.  For a store that exists, the viewer reports as [totalPages] the
    least number of pages of 50 that hold all cards.  Without a [page]
    parameter it shows page 1; with a parameter that reads as the integer
    [p] it shows page [p]; with one that is not a number ("abc") the query
    is rejected and the answer is the server error "DB query error".
    Every page has at most 50 cards; the pages 1 to [totalPages], one
    after the other, are exactly the cards of the store in ascending order
    of [id]; a page after the last is empty, and a page number below 1
    shows the first page.  Without a store the answer is "not found",
    whatever the parameter. *)
Theorem pages_partition_cards (data : DataDir) sport set db :
  data !! dbNameOf sport set = Some db →
  let n := Z.of_nat (length (cards db)) in
  let total := ceilDiv n pageSize in
  checklist data sport set None = Some (Ok (pageOf db 1) total)
  ∧ (∀ s p, readNumber s = IsInteger p →
            Z.abs ((p - 1) * pageSize) ≤ exactLimit →
            checklist data sport set (Some s) = Some (Ok (pageOf db p) total))
  ∧ (∀ s, readNumber s = IsNaN →
          checklist data sport set (Some s)
          = Some (ServerError "DB query error"))
  ∧ (∀ page, checklist (delete (dbNameOf sport set) data) sport set page
             = Some (NotFound "Checklist not found"))
  ∧ 50 * (total - 1) < n ≤ 50 * total
  ∧ (∀ p, (length (pageOf db p) ≤ 50)%nat)
  ∧ concat (map (fun k => pageOf db (Z.of_nat k + 1))
                (seq 0 (Z.to_nat total)))
    = merge_sort idLe (cards db)
  ∧ Sorted idLe (merge_sort idLe (cards db))
  ∧ merge_sort idLe (cards db) ≡ₚ cards db
  ∧ (∀ p, total < p → pageOf db p = [])
  ∧ (∀ p, p ≤ 1 → pageOf db p = pageOf db 1).
Proof.
  intros Hdb n total.
  assert (Hb : 50 * (total - 1) < n ≤ 50 * total)
    by (apply ceilDiv_bounds; lia).
  assert (Hlen : length (merge_sort idLe (cards db)) = length (cards db))
    by (apply Permutation_length, merge_sort_Permutation).
  split; [|split; [|split; [|split; [|split;
    [done|split; [|split; [|split; [|split; [|split]]]]]]]]].
  - unfold checklist. by rewrite Hdb.
  - intros s p Hs Hp. unfold checklist, offsetOf. rewrite Hdb, Hs.
    by rewrite decide_True by done.
  - intros s Hs. unfold checklist, offsetOf. by rewrite Hdb, Hs.
  - intros page. unfold checklist. by rewrite lookup_delete_eq.
  - intros p. unfold pageOf, limitOffset, pageSize. rewrite length_take. lia.
  - etrans; [|apply (concat_pages (merge_sort idLe (cards db))
                                   (Z.to_nat total)); rewrite Hlen; lia].
    f_equal. apply map_ext. intros k. unfold pageOf, limitOffset, pageSize.
    change (Z.to_nat 50) with 50%nat. do 2 f_equal. lia.
  - apply (Sorted_merge_sort idLe (Total0 := idLe_total)).
  - apply merge_sort_Permutation.
  - intros p Hp. unfold pageOf, limitOffset, pageSize.
    rewrite drop_ge; [done|]. rewrite Hlen. lia.
  - intros p Hp. unfold pageOf, limitOffset, pageSize. do 2 f_equal. lia.
Qed.

Lemma pages_partition_cards_witness :
  checklist {[ "nba_x.db" := autographStore ]} (Some "NBA") (Some "x")
            (Some " 2 ")
  = Some (Ok [] 1)
  ∧ checklist {[ "nba_x.db" := autographStore ]} (Some "NBA") (Some "x")
              (Some "abc")
    = Some (ServerError "DB query error")
  ∧ concat (map (fun k => pageOf autographStore (Z.of_nat k + 1)) (seq 0 1))
    = merge_sort idLe (cards autographStore).
Proof.
  pose proof (pages_partition_cards {[ "nba_x.db" := autographStore ]}
                (Some "NBA") (Some "x") autographStore eq_refl) as H.
  cbv zeta in H. destruct H as (_ & H2 & H3 & _ & _ & _ & H7 & _).
  split; [|split; [|exact H7]].
  - apply (H2 " 2 " 2 eq_refl). by vm_compute.
  - apply (H3 "abc" eq_refl).
Defined.

(** Parameters the embedding leaves unread: to the program "1.5" is a
    number, and the window it selects is not a page. *)
Example page_texts_left_unread :
  map (checklist {[ "nba_x.db" := autographStore ]} (Some "NBA") (Some "x"))
      [Some "1.5"; Some "1e3"; Some "0x10"]
  = [None; None; None].
Proof. reflexivity. Qed.

End Paging.

(** * From the upload to the list of athletes *)

Section UploadThenAthletes.
Import Upload AthletesRoute.

(** X19.  After an upload the list of athletes holds exactly the athlete
    names of the rows whose card write succeeded, those that are not blank,
    whatever else the file contains. *)
Theorem uploaded_athletes_are_row_names fails f (n : string) :
  n ∈ athleteNames (st_store (onEnd fails f))
  ↔ ∃ row, row ∈ successfulRows fails 0 (rows f)
           ∧ a_athlete_name (cardArgs row) = Some n
           ∧ Sql.TRIM n ≠ EmptyString.
Proof.
  rewrite athleteNames_elem, onEnd_cards. split.
  - intros (c & Hc & Hn & Ht).
    apply numberedCards_elem in Hc as (k & row & Hk & ->).
    exists row. split; [by eapply list_elem_of_lookup_2|]. by split.
  - intros (row & Hrow & Hn & Ht).
    apply list_elem_of_lookup in Hrow as [k Hk].
    exists (cardOf (1 + Z.of_nat k) row). split; [|by split].
    apply numberedCards_elem. by exists k, row.
Qed.

End UploadThenAthletes.
